(** * iPad catalog service: the request handlers of [main.py]

    A shallow embedding of the handlers of the catalog API
    ([serialize_doc], [list_ipads], [create_ipad], [compare_ipads] with its
    local [score], [seed_ipads]) and the properties the specification
    states about them.

    Conventions of the embedding:
    - a Python [dict] is a finite map [gmap string value];
    - a Python [str] is the Rocq string of its UTF-8 bytes; the handlers
      only compare strings with ASCII keys, test them for emptiness and
      upper-case them, and on the UTF-8 encoding these agree with Python
      (no character outside ASCII upper-cases to an ASCII letter of a
      chip key);
    - a Python [float] is a binary64 primitive float, a Python [int] is
      in [Z]; the two are kept apart in [num], with Python's coercion
      rules written out;
    - a raised exception is the [Raise] case of [res]. *)

From Stdlib Require Import ZArith Floats Uint63 Ascii String.
From stdpp Require Import base option list strings gmap.

Set Warnings "-inexact-float,-register-all".

Local Open Scope Z_scope.

(** ** Exceptions and the result monad *)

Inductive exc :=
| HTTPException (status_code : Z) (detail : string)
| RequestValidationError
| TypeError
| AttributeError
| ValueError
| OverflowError
| InvalidId
| PyMongoError.

Inductive res (A : Type) :=
| Ok (a : A)
| Raise (e : exc).
Arguments Ok {A} a.
Arguments Raise {A} e.

#[global] Instance res_ret : MRet res := fun A a => Ok a.
#[global] Instance res_bind : MBind res := fun A B f m =>
  match m with
  | Ok a => f a
  | Raise e => Raise e
  end.

(** The status line the framework sends for the outcome of a handler: an
    [HTTPException] carries its own status, a request that fails the
    declared parameter constraints is answered 422, every other
    exception that leaves the handler is answered 500. A value the
    handler returns is answered with the success status [ok]; the
    framework's encoding of that value to JSON comes after the handler
    and is not part of this function, so [status_of] speaks for the
    handler's outcome only: a returned value the encoder refuses (a NaN
    or infinite score, an identifier left inside a list) is answered 500
    by the framework although the handler returned. *)
Definition status_of {A} (ok : Z) (r : res A) : Z :=
  match r with
  | Ok _ => ok
  | Raise (HTTPException s _) => s
  | Raise RequestValidationError => 422
  | Raise _ => 500
  end.

(** ** Values *)

(** A store identifier: twelve bytes, kept as the number they spell. *)
Record ObjectId := mk_oid { oid_val : N }.

Inductive value :=
| VNone
| VBool (b : bool)
| VInt (z : Z)
| VFloat (f : float)
| VStr (s : string)
| VList (l : list value)
| VDict (d : gmap string value)
| VOid (o : ObjectId).

Abbreviation dict := (gmap string value).

(** Python numbers as the arithmetic of [score] sees them. *)
Inductive num :=
| NInt (z : Z)
| NFloat (f : float).

(** ** Strings *)

Definition hex_digit (n : N) : ascii :=
  match n with
  | 0 => "0" | 1 => "1" | 2 => "2" | 3 => "3" | 4 => "4" | 5 => "5"
  | 6 => "6" | 7 => "7" | 8 => "8" | 9 => "9" | 10 => "a" | 11 => "b"
  | 12 => "c" | 13 => "d" | 14 => "e" | _ => "f"
  end%N%char.

Fixpoint hex_digits (k : nat) (n : N) (acc : string) : string :=
  match k with
  | O => acc
  | S k' => hex_digits k' (N.div n 16) (String (hex_digit (N.modulo n 16)) acc)
  end.

(** [str(oid)]: the 24 lower-case hexadecimal digits of the twelve bytes. *)
Definition oid_hex (o : ObjectId) : string :=
  hex_digits 24 (oid_val o) EmptyString.

Definition is_lower (c : ascii) : bool :=
  let n := N_of_ascii c in ((97 <=? n) && (n <=? 122))%N.

Definition is_upper (c : ascii) : bool :=
  let n := N_of_ascii c in ((65 <=? n) && (n <=? 90))%N.

Definition upper_char (c : ascii) : ascii :=
  if is_lower c then ascii_of_N (N_of_ascii c - 32) else c.

Definition lower_char (c : ascii) : ascii :=
  if is_upper c then ascii_of_N (N_of_ascii c + 32) else c.

(** [s.upper()] *)
Fixpoint upper (s : string) : string :=
  match s with
  | EmptyString => EmptyString
  | String c s' => String (upper_char c) (upper s')
  end.

(** [len(s)] counts code points: the bytes that are not UTF-8
    continuation bytes. *)
Fixpoint str_len (s : string) : Z :=
  match s with
  | EmptyString => 0
  | String c s' =>
      (if (N.land (N_of_ascii c) 192 =? 128)%N then 0 else 1) + str_len s'
  end.

(** ** What the handlers take from the interpreter and the driver

    [float(s)] on a string, [str(v)] on a value that is neither a string
    nor an identifier, and the driver's [ObjectId(s)] are not part of the
    handlers; the development is parametric in them. *)
Class Externals := {
  float_of_str : string -> option float;
  str_other : value -> string;
  ObjectId_of_str : string -> option ObjectId
}.

(** ** Python built-ins on values *)

(** [float(n)] for an int: correctly rounded, [OverflowError] above the
    largest finite double. *)
Definition float_of_Z (z : Z) : res float :=
  if Z.abs z <? 2 ^ 63 then
    Ok (if z <? 0 then PrimFloat.opp (of_uint63 (Uint63.of_Z (- z)))
        else of_uint63 (Uint63.of_Z z))
  else
    let f := SF2Prim (binary_normalize prec emax z 0 false) in
    if is_infinity f then Raise OverflowError else Ok f.

Definition float_of_num (n : num) : res float :=
  match n with
  | NInt z => float_of_Z z
  | NFloat f => Ok f
  end.

(** [a + b] *)
Definition py_add (a b : num) : res num :=
  match a, b with
  | NInt x, NInt y => Ok (NInt (x + y))
  | _, _ =>
      x ← float_of_num a; y ← float_of_num b; Ok (NFloat (x + y)%float)
  end.

(** [a * b] *)
Definition py_mul (a b : num) : res num :=
  match a, b with
  | NInt x, NInt y => Ok (NInt (x * y))
  | _, _ =>
      x ← float_of_num a; y ← float_of_num b; Ok (NFloat (x * y)%float)
  end.

(** The exact value of a double, scaled by [2^1074] so that it is an
    integer; the infinities lie beyond every finite double, and NaN has
    no value. *)
Definition float_key (f : float) : option Z :=
  match Prim2SF f with
  | S754_zero _ => Some 0
  | S754_finite s m e =>
      Some ((if s then Z.neg m else Z.pos m) * 2 ^ (e + 1074))
  | S754_infinity s => Some (if s then - 2 ^ 2100 else 2 ^ 2100)
  | S754_nan => None
  end.

Definition num_key (n : num) : option Z :=
  match n with
  | NInt z => Some (z * 2 ^ 1074)
  | NFloat f => float_key f
  end.

(** [a >= b]: IEEE comparison between two floats, exact comparison when
    an int is involved, false as soon as one side is NaN. *)
Definition py_ge (a b : num) : bool :=
  match a, b with
  | NInt x, NInt y => y <=? x
  | NFloat f, NFloat g => PrimFloat.leb g f
  | _, _ =>
      match num_key a, num_key b with
      | Some x, Some y => y <=? x
      | _, _ => false
      end
  end.

(** Truth value of an object, as [if v], [not v] and [v or w] take it. *)
Definition truthy (v : value) : bool :=
  match v with
  | VNone => false
  | VBool b => b
  | VInt z => negb (z =? 0)
  | VFloat f => negb (PrimFloat.eqb f 0)
  | VStr s => negb (String.eqb s EmptyString)
  | VList l => match l with [] => false | _ => true end
  | VDict d => negb (Nat.eqb (size d) 0)
  | VOid _ => true
  end.

Section Builtins.
Context {ext : Externals}.

(** [str(v)] *)
Definition py_str (v : value) : string :=
  match v with
  | VOid o => oid_hex o
  | VStr s => s
  | _ => str_other v
  end.

(** [float(v)] *)
Definition py_float (v : value) : res float :=
  match v with
  | VFloat f => Ok f
  | VInt z => float_of_Z z
  | VBool b => Ok (if b then 1 else 0)%float
  | VStr s =>
      match float_of_str s with
      | Some f => Ok f
      | None => Raise ValueError
      end
  | _ => Raise TypeError
  end.

End Builtins.

(** [v.upper()] *)
Definition py_upper (v : value) : res string :=
  match v with
  | VStr s => Ok (upper s)
  | _ => Raise AttributeError
  end.

(** [len(v)] *)
Definition py_len (v : value) : res Z :=
  match v with
  | VList l => Ok (Z.of_nat (length l))
  | VStr s => Ok (str_len s)
  | VDict d => Ok (Z.of_nat (size d))
  | _ => Raise TypeError
  end.

(** [d.get(k, dflt)] and [d.get(k)] *)
Definition dict_get (d : dict) (k : string) (dflt : value) : value :=
  default dflt (d !! k).

(** ** Serialisation of a stored document *)

Section Handlers.
Context {ext : Externals}.

(** The loop body of [serialize_doc]: [if isinstance(v, ObjectId): d[k] = str(v)]. *)
Definition stringify (v : value) : value :=
  match v with
  | VOid _ => VStr (py_str v)
  | _ => v
  end.

Definition serialize_doc (doc : dict) : dict :=
  if negb (truthy (VDict doc)) then doc
  else
    let d := doc in
    let d :=
      match d !! "_id" with
      | Some i => <["id" := VStr (py_str i)]> (delete "_id" d)
      | None => d
      end in
    stringify <$> d.

(** ** The scoring heuristic of [compare_ipads] *)

Definition chip_score : gmap string num :=
  {[ "M4" := NInt 5; "M3" := NFloat 4.5; "M2" := NInt 4;
     "M1" := NFloat 3.5; "A15" := NInt 3; "A14" := NFloat 2.5 ]}.

(** [chip_score.get(x.get("chip", "").upper(), 2)] *)
Definition chip_tier (x : dict) : res num :=
  key ← py_upper (dict_get x "chip" (VStr ""));
  Ok (default (NInt 2) (chip_score !! key)).

(** [float(x.get("display_size", 0)) * 0.2] *)
Definition display_term (x : dict) : res num :=
  d ← py_float (dict_get x "display_size" (VInt 0));
  py_mul (NFloat d) (NFloat 0.2).

(** [(1 if x.get("cellular") else 0) * 0.3] *)
Definition cellular_term (x : dict) : res num :=
  py_mul (NInt (if truthy (dict_get x "cellular" VNone) then 1 else 0))
         (NFloat 0.3).

(** [len(x.get("storage_options", [])) * 0.1] *)
Definition storage_term (x : dict) : res num :=
  n ← py_len (dict_get x "storage_options" (VList []));
  py_mul (NInt n) (NFloat 0.1).

Definition score (x : dict) : res num :=
  let base := NInt 0 in
  t ← chip_tier x; base ← py_add base t;
  t ← display_term x; base ← py_add base t;
  t ← cellular_term x; base ← py_add base t;
  t ← storage_term x; base ← py_add base t;
  Ok base.

End Handlers.

(** ** The store

    The handlers reach the catalog through the global [db] ([None] when
    the service is not configured) and through the helpers of
    [database.py]. A store is the [ipad] collection, the counter its
    identifiers are drawn from, and whether the connection answers. An
    operation on a store that does not answer raises the driver's
    error. The flag stands for the whole of one request: a connection
    that is lost between two operations of the same request is not
    represented. *)

Record store := mk_store {
  available : bool;
  ipad : list dict;
  next_oid : N
}.

Definition has_id (o : ObjectId) (d : dict) : bool :=
  match d !! "_id" with
  | Some (VOid o') => N.eqb (oid_val o) (oid_val o')
  | _ => false
  end.

(** [db["ipad"].find_one({"_id": oid})] *)
Definition find_one (st : store) (o : ObjectId) : res (option dict) :=
  if available st then Ok (List.find (has_id o) (ipad st))
  else Raise PyMongoError.

(** [db["ipad"].count_documents({})] *)
Definition count_documents (st : store) : res Z :=
  if available st then Ok (Z.of_nat (length (ipad st)))
  else Raise PyMongoError.

(** *** Filter expressions, as the store reads them

    The handler hands the store a filter written with the store's own
    operators: a plain value for equality, [$regex] with [$options] for a
    pattern, [$gte] and [$lte] for a range. The store returns the records
    whose fields satisfy every constraint; the fields are the scalars of
    the data model. The meaning of a pattern belongs to the store's
    expression engine; it is fixed here for ASCII text only, on the
    fragment made of literal characters, the wildcard [.] and
    backslash-escaped punctuation, searched anywhere in the field, with
    the case of letters ignored under the option [i]. Nothing is fixed
    for text outside ASCII, where an engine reads characters of several
    bytes and folds the case of further letters. *)

Inductive atom :=
| Lit (c : ascii)
| AnyChar.

Definition is_meta (c : ascii) : bool :=
  existsb (Ascii.eqb c)
    (list_ascii_of_string "\^$.|?*+()[]{}").

Definition is_alnum (c : ascii) : bool :=
  let n := N_of_ascii c in
  (((48 <=? n) && (n <=? 57)) || is_upper c || is_lower c)%N.

Fixpoint parse_regex (p : string) : option (list atom) :=
  match p with
  | EmptyString => Some []
  | String c p' =>
      if Ascii.eqb c "\" then
        match p' with
        | String e p'' =>
            if is_alnum e then None
            else rest ← parse_regex p''; Some (Lit e :: rest)
        | EmptyString => None
        end
      else if Ascii.eqb c "." then
        rest ← parse_regex p'; Some (AnyChar :: rest)
      else if is_meta c then None
      else rest ← parse_regex p'; Some (Lit c :: rest)
  end.

Definition atom_matches (icase : bool) (a : atom) (c : ascii) : bool :=
  match a with
  | Lit l =>
      if icase then Ascii.eqb (upper_char l) (upper_char c)
      else Ascii.eqb l c
  | AnyChar => negb (Ascii.eqb c "010")
  end.

Fixpoint match_here (icase : bool) (p : list atom) (s : string) : bool :=
  match p with
  | [] => true
  | a :: p' =>
      match s with
      | EmptyString => false
      | String c s' => atom_matches icase a c && match_here icase p' s'
      end
  end.

Fixpoint regex_search (icase : bool) (p : list atom) (s : string) : bool :=
  match_here icase p s ||
  match s with
  | EmptyString => false
  | String _ s' => regex_search icase p s'
  end.

Definition is_ascii (c : ascii) : bool := (N_of_ascii c <? 128)%N.

Fixpoint ascii_only (s : string) : bool :=
  match s with
  | EmptyString => true
  | String c s' => is_ascii c && ascii_only s'
  end.

(** The store's expression engine: [regex_compile p icase] is the test
    that pattern [p] performs on a field ([None] when the store rejects
    the pattern). An ASCII pattern of the fragment is accepted, and on
    ASCII fields its test is the search defined above. *)
Class RegexEngine := {
  regex_compile : string -> bool -> option (string -> bool);
  regex_compile_fragment :
    forall p icase atoms,
      parse_regex p = Some atoms ->
      ascii_only p = true ->
      exists test,
        regex_compile p icase = Some test /\
        forall s, ascii_only s = true -> test s = regex_search icase atoms s
}.

Inductive constraint :=
| CEq (s : string)
| CRegex (test : string -> bool)
| CRange (lo hi : option float).

Definition read_bound (v : option value) : option (option float) :=
  match v with
  | None => Some None
  | Some (VFloat f) => Some (Some f)
  | Some _ => None
  end.

Definition read_options (v : option value) : option bool :=
  match v with
  | None => Some false
  | Some (VStr o) =>
      if String.eqb o "i" then Some true
      else if String.eqb o "" then Some false
      else None
  | Some _ => None
  end.

(** The store orders numbers by their exact values, whatever their
    representation; NaN compares only with itself. *)
Definition key_le (a b : option Z) : bool :=
  match a, b with
  | Some x, Some y => x <=? y
  | None, None => true
  | _, _ => false
  end.

Definition number_key (v : value) : option (option Z) :=
  match v with
  | VInt z => Some (num_key (NInt z))
  | VFloat f => Some (float_key f)
  | _ => None
  end.

Section Endpoints.
Context {ext : Externals} {eng : RegexEngine}.

Definition read_constraint (c : value) : option constraint :=
  match c with
  | VStr s => Some (CEq s)
  | VDict m =>
      match m !! "$regex" with
      | Some (VStr p) =>
          icase ← read_options (m !! "$options");
          test ← regex_compile p icase;
          Some (CRegex test)
      | Some _ => None
      | None =>
          lo ← read_bound (m !! "$gte");
          hi ← read_bound (m !! "$lte");
          Some (CRange lo hi)
      end
  | _ => None
  end.

Definition holds (c : constraint) (field : option value) : bool :=
  match c, field with
  | CEq s, Some (VStr s') => String.eqb s s'
  | CRegex test, Some (VStr s') => test s'
  | CRange lo hi, Some v =>
      match number_key v with
      | Some k =>
          from_option (fun l => key_le (float_key l) k) true lo &&
          from_option (fun h => key_le k (float_key h)) true hi
      | None => false
      end
  | _, _ => false
  end.

(** Does document [d] satisfy the constraint that filter [f] puts on
    field [k]? *)
Definition field_holds (f : dict) (k : string) (d : dict) : bool :=
  match f !! k with
  | None => true
  | Some v => from_option (fun c => holds c (d !! k)) false (read_constraint v)
  end.

Definition well_formed (f : dict) : Prop :=
  map_Forall (fun _ v => is_Some (read_constraint v)) f.

Definition doc_matches (f : dict) (d : dict) : Prop :=
  map_Forall (fun k _ => field_holds f k d = true) f.

#[global] Instance well_formed_dec f : Decision (well_formed f) := _.
#[global] Instance doc_matches_dec f d : Decision (doc_matches f d) := _.

(** Modelled from the spec: [get_documents("ipad", filter_dict)] of
    [database.py] returns the matching records in the store's order. *)
Definition get_documents (st : store) (filter_dict : dict) : res (list dict) :=
  if available st then
    if bool_decide (well_formed filter_dict)
    then Ok (filter (doc_matches filter_dict) (ipad st))
    else Raise PyMongoError
  else Raise PyMongoError.

(** Modelled from the spec: [create_document("ipad", data)] of
    [database.py] inserts the record under a newly assigned identifier
    and returns that identifier as a string. The identifier is the
    store's counter, which is taken to be above every identifier in the
    collection (as it is in a store grown from [empty_store] by this
    function). *)
Definition create_document (st : store) (data : dict) : res string * store :=
  if available st then
    let o := mk_oid (next_oid st) in
    (Ok (oid_hex o),
     {| available := available st;
        ipad := ipad st ++ [<["_id" := VOid o]> data];
        next_oid := N.succ (next_oid st) |})
  else (Raise PyMongoError, st).

(** ** [GET /api/ipads] *)

(** The declared constraint [Query(None, ge=0)] on a display bound. *)
Definition ge0 (v : option float) : bool :=
  from_option (fun x => PrimFloat.leb 0 x) true v.

Definition present (s : option string) : bool :=
  from_option (fun x => truthy (VStr x)) false s.

(** [v is not None] *)
Definition is_not_None {A} (v : option A) : bool :=
  match v with
  | Some _ => true
  | None => false
  end.

(** The value of [filter_dict] when the handler queries the store. *)
Definition filter_dict (q chip : option string)
    (min_display max_display : option float) : dict :=
  let filter_dict : dict := ∅ in
  let filter_dict :=
    if present q then
      <["name" := VDict {[ "$regex" := VStr (default "" q);
                           "$options" := VStr "i" ]}]> filter_dict
    else filter_dict in
  let filter_dict :=
    if present chip then <["chip" := VStr (default "" chip)]> filter_dict
    else filter_dict in
  if is_not_None min_display || is_not_None max_display then
    let rng : dict := ∅ in
    let rng :=
      match min_display with
      | Some x => <["$gte" := VFloat x]> rng
      | None => rng
      end in
    let rng :=
      match max_display with
      | Some x => <["$lte" := VFloat x]> rng
      | None => rng
      end in
    <["display_size" := VDict rng]> filter_dict
  else filter_dict.

Definition list_ipads (db : option store) (q chip : option string)
    (min_display max_display : option float) : res (list dict) :=
  if negb (ge0 min_display && ge0 max_display) then
    Raise RequestValidationError
  else
    match db with
    | None => Raise (HTTPException 500 "Database not configured")
    | Some st =>
        docs ← get_documents st (filter_dict q chip min_display max_display);
        Ok (map serialize_doc docs)
    end.

(** ** [POST /api/ipads] *)

(** Modelled from the spec: the device record of [schemas.py] (section 3
    of the specification), with the fields the seed fixture fills. *)
Record IPad := mk_IPad {
  name : string;
  generation : string;
  chip : string;
  display_size : float;
  storage_options : list Z;
  base_price : float;
  colors : list string;
  supports_pencil : string;
  cellular : bool;
  image_url : string
}.

(** The document a record is stored as. *)
Definition model_dump (m : IPad) : dict :=
  {[ "name" := VStr (name m);
     "generation" := VStr (generation m);
     "chip" := VStr (chip m);
     "display_size" := VFloat (display_size m);
     "storage_options" := VList (VInt <$> storage_options m);
     "base_price" := VFloat (base_price m);
     "colors" := VList (VStr <$> colors m);
     "supports_pencil" := VStr (supports_pencil m);
     "cellular" := VBool (cellular m);
     "image_url" := VStr (image_url m) ]}.

Definition create_ipad (db : option store) (model : IPad)
    : res dict * option store :=
  match db with
  | None => (Raise (HTTPException 500 "Database not configured"), db)
  | Some st =>
      let '(r, st') := create_document st (model_dump model) in
      (inserted_id ← r; Ok ({[ "id" := VStr inserted_id ]} : dict), Some st')
  end.

(** ** [POST /api/ipads/compare] *)

Record CompareRequest := mk_CompareRequest {
  payload_a : string;
  payload_b : string
}.

(** [ObjectId(s)] *)
Definition ObjectId_new (s : string) : res ObjectId :=
  match ObjectId_of_str s with
  | Some o => Ok o
  | None => Raise InvalidId
  end.

(** [not doc] for the result of [find_one] *)
Definition missing (doc : option dict) : bool :=
  match doc with
  | None => true
  | Some d => negb (truthy (VDict d))
  end.

Definition value_of_num (n : num) : value :=
  match n with
  | NInt z => VInt z
  | NFloat f => VFloat f
  end.

Definition compare_ipads (db : option store) (payload : CompareRequest)
    : res dict :=
  match db with
  | None => Raise (HTTPException 500 "Database not configured")
  | Some st =>
      let fetched :=
        oa ← ObjectId_new (payload_a payload);
        a_doc ← find_one st oa;
        ob ← ObjectId_new (payload_b payload);
        b_doc ← find_one st ob;
        Ok (a_doc, b_doc) in
      match fetched with
      | Raise _ => Raise (HTTPException 400 "Invalid id format")
      | Ok (a_doc, b_doc) =>
          if missing a_doc || missing b_doc then
            Raise (HTTPException 404 "One or both models not found")
          else
            let a := serialize_doc (default ∅ a_doc) in
            let b := serialize_doc (default ∅ b_doc) in
            a_score ← score a;
            b_score ← score b;
            let recommendation :=
              if py_ge a_score b_score then "A" else "B" in
            Ok ({[ "a" := VDict a;
                   "b" := VDict b;
                   "scores" := VDict {[ "a" := value_of_num a_score;
                                        "b" := value_of_num b_score ]};
                   "recommended" := VStr recommendation ]} : dict)
      end
  end.

(** ** [POST /api/ipads/seed] *)

Definition demo : list IPad :=
  [ mk_IPad "iPad Pro 11" "M4 (2024)" "M4" 11.0 [256; 512; 1024] 999.0
      ["Silver"; "Space Black"] "Apple Pencil Pro" true
      "https://store.storeimages.cdn-apple.com/4982/as-images.apple.com/is/ipad-pro-11-digitalmat-gallery-1-202404?wid=728&hei=666&fmt=png-alpha&.v=1712605559398";
    mk_IPad "iPad Air 13" "M2 (2024)" "M2" 13.0 [128; 256; 512] 799.0
      ["Blue"; "Purple"; "Starlight"; "Space Gray"] "Apple Pencil Pro" true
      "https://store.storeimages.cdn-apple.com/4982/as-images.apple.com/is/ipad-air-13-digitalmat-gallery-1-202405?wid=728&hei=666&fmt=png-alpha&.v=1713836176004";
    mk_IPad "iPad (10th gen)" "A14 (2022)" "A14" 10.9 [64; 256] 349.0
      ["Blue"; "Pink"; "Yellow"; "Silver"] "USB‑C Apple Pencil" true
      "https://store.storeimages.cdn-apple.com/4982/as-images.apple.com/is/ipad-10th-gen-hero-blue-wifi-select?wid=540&hei=540&fmt=jpeg&qlt=90&.v=1664481087749";
    mk_IPad "iPad mini" "A15 (2021)" "A15" 8.3 [64; 256] 499.0
      ["Space Gray"; "Pink"; "Purple"; "Starlight"] "Apple Pencil (2nd gen)" true
      "https://store.storeimages.cdn-apple.com/4982/as-images.apple.com/is/ipad-mini-select-202109_GEO_US?wid=540&hei=540&fmt=jpeg&qlt=90&.v=1631751068000" ].

(** The loop [for item in demo: create_document("ipad", item); inserted += 1]. *)
Fixpoint seed_loop (items : list IPad) (inserted : Z) (st : store)
    : res Z * store :=
  match items with
  | [] => (Ok inserted, st)
  | item :: rest =>
      match create_document st (model_dump item) with
      | (Ok _, st') => seed_loop rest (inserted + 1) st'
      | (Raise e, st') => (Raise e, st')
      end
  end.

Definition seed_ipads (db : option store) : res dict * option store :=
  match db with
  | None => (Raise (HTTPException 500 "Database not configured"), db)
  | Some st =>
      match count_documents st with
      | Raise e => (Raise e, db)
      | Ok count =>
          if count >? 0 then
            (Ok ({[ "inserted" := VInt 0;
                    "message" := VStr "Catalog already has data" ]} : dict),
             db)
          else
            let '(r, st') := seed_loop demo 0 st in
            (inserted ← r; Ok ({[ "inserted" := VInt inserted ]} : dict),
             Some st')
      end
  end.

End Endpoints.

(** ** [GET /test] *)

(** What the diagnostics read of the store handle: its [name] attribute,
    when it has one, and the outcome of [list_collection_names()], the
    names or the text of the exception it raised. *)
Record db_handle := mk_db_handle {
  handle_name : option value;
  collection_names : string + list string
}.

Definition is_continuation (c : ascii) : bool :=
  (N.land (N_of_ascii c) 192 =? 128)%N.

(** [s[:n]]: the first [n] code points of [s]. *)
Fixpoint str_take (n : nat) (s : string) : string :=
  match s with
  | EmptyString => EmptyString
  | String c s' =>
      if is_continuation c then String c (str_take n s')
      else
        match n with
        | O => EmptyString
        | S n' => String c (str_take n' s')
        end
  end.

(** [os.getenv(k)] as a condition: set, and not to the empty string. *)
Definition getenv_set (env : gmap string string) (k : string) : bool :=
  from_option (fun v => truthy (VStr v)) false (env !! k).

(** The handler. Within the outer [try] only [list_collection_names()]
    can raise, and it is called inside the inner [try]; the outer handler
    is therefore never entered and is left out. *)
Definition test_database (db : option db_handle) (env : gmap string string)
    : dict :=
  let response : dict :=
    {[ "backend" := VStr "✅ Running";
       "database" := VStr "❌ Not Available";
       "database_url" := VNone;
       "database_name" := VNone;
       "connection_status" := VStr "Not Connected";
       "collections" := VList [] ]} in
  let response :=
    match db with
    | Some h =>
        let response := <["database" := VStr "✅ Available"]> response in
        let response :=
          <["database_url" := VStr "✅ Configured"]> response in
        let response :=
          <["database_name" :=
              default (VStr "✅ Connected") (handle_name h)]> response in
        let response :=
          <["connection_status" := VStr "Connected"]> response in
        match collection_names h with
        | inr collections =>
            let response :=
              <["collections" := VList (VStr <$> take 10 collections)]>
                response in
            <["database" := VStr "✅ Connected & Working"]> response
        | inl e =>
            <["database" :=
                VStr (String.append "⚠️  Connected but Error: "
                                    (str_take 50 e))]> response
        end
    | None =>
        <["database" := VStr "⚠️  Available but not initialized"]>
          response
    end in
  let response :=
    <["database_url" :=
        VStr (if getenv_set env "DATABASE_URL" then "✅ Set"
              else "❌ Not Set")]> response in
  let response :=
    <["database_name" :=
        VStr (if getenv_set env "DATABASE_NAME" then "✅ Set"
              else "❌ Not Set")]> response in
  response.

(** * The specification's vocabulary *)

(** The tier table of the specification, read case-insensitively, with
    the default tier for any other chip. *)
Definition spec_chip_tier_score (chip : string) : float :=
  let c := upper chip in
  if String.eqb c "M4" then 5
  else if String.eqb c "M3" then 4.5
  else if String.eqb c "M2" then 4
  else if String.eqb c "M1" then 3.5
  else if String.eqb c "A15" then 3
  else if String.eqb c "A14" then 2.5
  else 2.

(** [count(storage_options)], as a double. *)
Definition spec_count (storage_options : list value) : float :=
  of_uint63 (Uint63.of_Z (Z.of_nat (length storage_options))).

(** The score formula of the specification. *)
Definition spec_score (chip : string) (display_size : float)
    (cellular : bool) (storage_options : list value) : float :=
  (spec_chip_tier_score chip + display_size * 0.2
   + (if cellular then 0.3 else 0) + 0.1 * spec_count storage_options)%float.

(** A record whose four scored attributes have the types of the data
    model. *)
Definition scored_fields (x : dict) (chip : string) (display_size : float)
    (cellular : bool) (storage_options : list value) : Prop :=
  x !! "chip" = Some (VStr chip) ∧
  x !! "display_size" = Some (VFloat display_size) ∧
  x !! "cellular" = Some (VBool cellular) ∧
  x !! "storage_options" = Some (VList storage_options) ∧
  Z.of_nat (length storage_options) < 2 ^ 63.

(** Two characters that are the same letter up to case. *)
Definition same_letter (a b : ascii) : bool :=
  Ascii.eqb a b
  || (is_lower a && Ascii.eqb b (upper_char a))
  || (is_upper a && Ascii.eqb b (lower_char a)).

(** Two strings that differ only in the case of their letters. *)
Fixpoint case_variant (s t : string) : bool :=
  match s, t with
  | EmptyString, EmptyString => true
  | String a s', String b t' => same_letter a b && case_variant s' t'
  | _, _ => false
  end.

(** [q] occurs in [n] as a literal substring, letter case ignored. *)
Definition occurs_ci (q n : string) : Prop :=
  ∃ pre post,
    upper n = String.append pre (String.append (upper q) post).

(** A query without any character of the pattern syntax. *)
Fixpoint plain (q : string) : bool :=
  match q with
  | EmptyString => true
  | String c q' => negb (is_meta c) && plain q'
  end.

(** The pattern that spells [q] literally. *)
Fixpoint lits (q : string) : list atom :=
  match q with
  | EmptyString => []
  | String c q' => Lit c :: lits q'
  end.

(** A NaN score, as Python tests it ([s != s]). *)
Definition num_is_nan (n : num) : bool :=
  match n with
  | NInt _ => false
  | NFloat f => is_nan f
  end.

(** The attributes of a record that [score] can read: each is absent or
    has a type the arithmetic accepts. *)
Definition scorable (x : dict) : Prop :=
  match x !! "chip" with
  | None | Some (VStr _) => True
  | _ => False
  end ∧
  match x !! "display_size" with
  | None | Some (VFloat _) | Some (VBool _) => True
  | Some (VInt z) => Z.abs z < 2 ^ 63
  | _ => False
  end ∧
  match x !! "storage_options" with
  | None => True
  | Some (VList l) => Z.of_nat (length l) < 2 ^ 63
  | _ => False
  end.

(** The exceptions the built-ins raise; none of them is an HTTP response
    of the handler's own. *)
Definition builtin_error (e : exc) : Prop :=
  match e with
  | TypeError | AttributeError | ValueError | OverflowError => True
  | _ => False
  end.

(** * A concrete environment and sample data *)

Definition hex_value (c : ascii) : option N :=
  let n := N_of_ascii c in
  if ((48 <=? n) && (n <=? 57))%N then Some (n - 48)%N
  else if ((97 <=? n) && (n <=? 102))%N then Some (n - 87)%N
  else if ((65 <=? n) && (n <=? 70))%N then Some (n - 55)%N
  else None.

Fixpoint parse_hex (s : string) (acc : N) : option N :=
  match s with
  | EmptyString => Some acc
  | String c s' => d ← hex_value c; parse_hex s' (16 * acc + d)%N
  end.

(** The identifier shape of the driver: 24 hexadecimal digits. *)
Definition oid_of_hex (s : string) : option ObjectId :=
  if Nat.eqb (String.length s) 24 then mk_oid <$> parse_hex s 0%N
  else None.

(** The environment the handlers are run in below. Its identifier parser
    is the driver's; the sample data never passes a string to [float] nor
    a value other than a string or an identifier to [str], so these two
    are left trivial. *)
Definition sample_env : Externals := {|
  float_of_str := fun _ => None;
  str_other := fun _ => ""%string;
  ObjectId_of_str := oid_of_hex
|}.

(** The engine that knows the fragment and rejects any other pattern. *)
Definition fragment_compile (p : string) (icase : bool)
    : option (string -> bool) :=
  regex_search icase <$> parse_regex p.

Definition sample_engine : RegexEngine := {|
  regex_compile := fragment_compile;
  regex_compile_fragment := fun p icase atoms Hp _ =>
    ex_intro _ (regex_search icase atoms)
      (conj (f_equal (fmap (regex_search icase)) Hp)
            (fun s _ => eq_refl))
|}.

Definition sample_id (n : N) : string := oid_hex (mk_oid n).

Definition record_A : dict :=
  {[ "chip" := VStr "M4"; "display_size" := VFloat 11;
     "cellular" := VBool true;
     "storage_options" := VList [VInt 256; VInt 512; VInt 1024] ]}.

Definition record_B : dict :=
  {[ "chip" := VStr "A14"; "display_size" := VFloat 10.9;
     "cellular" := VBool true;
     "storage_options" := VList [VInt 64; VInt 256] ]}.

(** A stored record whose display size is not a number. *)
Definition record_nan : dict :=
  {[ "_id" := VOid (mk_oid 7); "name" := VStr "iPad"; "chip" := VStr "M4";
     "display_size" := VFloat nan; "cellular" := VBool true;
     "storage_options" := VList [VInt 64] ]}.

Definition empty_store : store := mk_store true [] 1.

Definition seeded_store : store :=
  from_option id empty_store (snd (seed_ipads (Some empty_store))).

Definition nan_store : store := mk_store true [record_nan] 8.

(** A stored document that refers to other records: directly, in a list
    and in a sub-document. *)
Definition record_nested : dict :=
  {[ "_id" := VOid (mk_oid 7);
     "name" := VStr "iPad";
     "successor" := VOid (mk_oid 8);
     "related" := VList [VOid (mk_oid 9)];
     "maker" := VDict {[ "ref" := VOid (mk_oid 10) ]} ]}.

(** The [n]-th record of the seeded store. *)
Definition sample_doc (n : nat) : dict := nth n (ipad seeded_store) ∅.

(** A comparison of the first and the third demo record. *)
Definition sample_request : CompareRequest :=
  mk_CompareRequest (sample_id 1) (sample_id 3).

Definition sample_response : dict :=
  match compare_ipads (ext := sample_env) (Some seeded_store) sample_request with
  | Ok r => r
  | Raise _ => ∅
  end.

(** A comparison of the NaN record with itself. *)
Definition nan_request : CompareRequest :=
  mk_CompareRequest (sample_id 7) (sample_id 7).

Definition nan_response : dict :=
  match compare_ipads (ext := sample_env) (Some nan_store) nan_request with
  | Ok r => r
  | Raise _ => ∅
  end.

(** The seeded store when the connection no longer answers. *)
Definition down_store : store :=
  mk_store false (ipad seeded_store) (next_oid seeded_store).

(** A handle whose listing fails, and an environment with only the URL
    set. *)
Definition failing_handle : db_handle :=
  mk_db_handle (Some (VStr "catalog")) (inl "connection refused"%string).

Definition sample_environ : gmap string string :=
  {[ "DATABASE_URL" := "mongodb://localhost"%string ]}.

(** A store with a record whose chip is null. *)
Definition record_null_chip : dict :=
  {[ "_id" := VOid (mk_oid 9); "name" := VStr "iPad"; "chip" := VNone;
     "display_size" := VFloat 11; "cellular" := VBool true;
     "storage_options" := VList [VInt 64] ]}.

Definition null_chip_store : store := mk_store true [record_null_chip] 10.

(** The listing of the seeded store for chip "M4" and displays from 10
    inches. *)
Definition sample_listing : list dict :=
  match list_ipads (ext := sample_env) (eng := sample_engine)
          (Some seeded_store) None (Some "M4"%string) (Some 10%float) None with
  | Ok l => l
  | Raise _ => []
  end.

(** The model of the first demo record. *)
Definition sample_model : IPad :=
  mk_IPad "iPad Pro 11" "M4 (2024)" "M4" 11.0 [256; 512; 1024] 999.0
    ["Silver"; "Space Black"] "Apple Pencil Pro" true
    "https://example.invalid/ipad-pro-11.png".

(** * Vocabulary of the further properties *)

(** [isinstance(v, ObjectId)] *)
Definition is_oid (v : value) : bool :=
  match v with
  | VOid _ => true
  | _ => false
  end.

(** The four attributes that [score] reads. *)
Definition scored_keys : list string :=
  ["chip"; "display_size"; "cellular"; "storage_options"]%string.

(** A request parameter that is dropped ([None]) or kept as it is. *)
Definition relaxes {A} (a b : option A) : Prop := a = None ∨ a = b.

(** The store's counter is above every identifier in the collection. *)
Definition counter_above (st : store) : Prop :=
  ∀ d o, d ∈ ipad st → d !! "_id" = Some (VOid o) →
         (oid_val o < next_oid st)%N.

(** A record whose name, when it is a string, is ASCII text. *)
Definition ascii_name (d : dict) : bool :=
  match d !! "name" with
  | Some (VStr n) => ascii_only n
  | _ => true
  end.

(** * Properties *)

(** Closed goals are decided by evaluation in the virtual machine. *)
Ltac vm_refl :=
  lazymatch goal with
  | |- _ = ?b => vm_cast_no_check (eq_refl b)
  | |- Is_true _ => vm_cast_no_check I
  end.

(** ** Auxiliary facts on strings and maps *)

Lemma hex_digits_length (k : nat) (n : N) (acc : string) :
  String.length (hex_digits k n acc) = (k + String.length acc)%nat.
Proof.
  revert n acc. induction k as [|k IH]; intros n acc; simpl; [done|].
  rewrite IH. simpl. lia.
Qed.

Lemma oid_hex_length (o : ObjectId) : String.length (oid_hex o) = 24%nat.
Proof. unfold oid_hex. by rewrite hex_digits_length. Qed.

Lemma oid_hex_nonempty (o : ObjectId) : oid_hex o ≠ ""%string.
Proof.
  intros E. pose proof (oid_hex_length o) as L. rewrite E in L. discriminate.
Qed.

Lemma truthy_dict_lookup (d : dict) (k : string) (v : value) :
  d !! k = Some v → truthy (VDict d) = true.
Proof.
  intros Hk. simpl. apply negb_true_iff, Nat.eqb_neq.
  apply map_size_non_empty_iff. intros ->. by rewrite lookup_empty in Hk.
Qed.

Section Serialize.
Context {ext : Externals}.

Lemma serialize_doc_lookup (doc : dict) (i : value) (k : string) :
  doc !! "_id" = Some i →
  serialize_doc doc !! k =
    if decide (k = "id") then Some (VStr (py_str i))
    else if decide (k = "_id") then None
    else stringify <$> doc !! k.
Proof.
  intros Hid. unfold serialize_doc.
  rewrite (truthy_dict_lookup _ _ _ Hid). simpl. rewrite Hid.
  rewrite lookup_fmap. destruct (decide (k = "id")) as [->|Hk].
  - by rewrite lookup_insert_eq.
  - rewrite lookup_insert_ne by done.
    destruct (decide (k = "_id")) as [->|Hk'].
    + by rewrite lookup_delete_eq.
    + by rewrite lookup_delete_ne.
Qed.

Lemma serialize_doc_no_id (doc : dict) (k : string) :
  doc !! "_id" = None →
  serialize_doc doc !! k = stringify <$> doc !! k.
Proof.
  intros Hid. unfold serialize_doc.
  destruct (negb (truthy (VDict doc))) eqn:E.
  - apply negb_true_iff in E. simpl in E.
    apply negb_false_iff, Nat.eqb_eq, map_size_empty_iff in E. subst doc.
    by rewrite lookup_empty.
  - rewrite Hid. by rewrite lookup_fmap.
Qed.

(** X24: for a stored document (one that carries the store's [_id]), the
    serialised output has no [_id] key; its [id] field is the string form
    of the identifier, which is not empty when the identifier is one the
    store assigned; every other field whose value is itself an identifier
    holds its string form in the output, and every other field keeps its
    value, identifiers inside it included. *)
Theorem serialize_doc_replaces_id (doc : dict) (i : value) :
  doc !! "_id" = Some i →
  serialize_doc doc !! "_id" = None ∧
  serialize_doc doc !! "id" = Some (VStr (py_str i)) ∧
  (∀ o, i = VOid o → py_str i = oid_hex o ∧ py_str i ≠ ""%string) ∧
  (∀ k, k ≠ "_id" → k ≠ "id" →
     match doc !! k with
     | Some (VOid o) => serialize_doc doc !! k = Some (VStr (oid_hex o))
     | other => serialize_doc doc !! k = other
     end).
Proof.
  intros Hid. repeat split.
  - rewrite (serialize_doc_lookup _ _ _ Hid). by repeat case_decide.
  - rewrite (serialize_doc_lookup _ _ _ Hid). by repeat case_decide.
  - by subst i.
  - subst i. apply oid_hex_nonempty.
  - intros k Hk Hk'. rewrite (serialize_doc_lookup _ _ _ Hid).
    repeat case_decide; try done.
    destruct (doc !! k) as [[]|]; done.
Qed.

End Serialize.

(** ** The store's order on doubles agrees with the IEEE comparison *)

Section FloatOrder.

Lemma digits2_pos_bounds (m : positive) :
  2 ^ (Z.pos (digits2_pos m) - 1) <= Z.pos m < 2 ^ Z.pos (digits2_pos m).
Proof.
  induction m as [m IH|m IH|]; simpl digits2_pos; [| |simpl; lia].
  all: rewrite Pos2Z.inj_succ.
  all: replace (Z.succ (Z.pos (digits2_pos m)) - 1)
         with (Z.succ (Z.pos (digits2_pos m) - 1)) by lia.
  all: rewrite (Z.pow_succ_r 2 (Z.pos (digits2_pos m) - 1)) by lia.
  all: rewrite (Z.pow_succ_r 2 (Z.pos (digits2_pos m))) by lia.
  all: lia.
Qed.

Lemma bounded_range (m : positive) (e : Z) :
  bounded prec emax m e = true →
  -1074 <= e <= 971 ∧ Z.pos m < 2 ^ 53 ∧ (-1074 < e → 2 ^ 52 <= Z.pos m).
Proof.
  unfold bounded, canonical_mantissa, fexp, SpecFloat.emin, prec, emax.
  intros [Hc He%Z.leb_le]%andb_true_iff. apply Z.eqb_eq in Hc.
  pose proof (digits2_pos_bounds m) as [Hlo Hhi].
  set (d := Z.pos (digits2_pos m)) in *.
  assert (Hd : d <= 53) by lia.
  split; [lia|]. split.
  - eapply Z.lt_le_trans; [exact Hhi|]. apply Z.pow_le_mono_r; lia.
  - intros Hgt. assert (d = 53) as Hd53 by lia.
    rewrite Hd53 in Hlo. exact Hlo.
Qed.

(** Magnitudes of canonical doubles are ordered first by exponent, then
    by mantissa. *)
Lemma magnitude_lt (m1 m2 : positive) (e1 e2 : Z) :
  bounded prec emax m1 e1 = true →
  bounded prec emax m2 e2 = true →
  e1 < e2 ∨ (e1 = e2 ∧ (m1 < m2)%positive) →
  Z.pos m1 * 2 ^ (e1 + 1074) < Z.pos m2 * 2 ^ (e2 + 1074).
Proof.
  intros (R1 & U1 & _)%bounded_range (R2 & _ & L2)%bounded_range [Hlt|[-> Hm]].
  - specialize (L2 ltac:(lia)).
    replace (e2 + 1074) with (e2 - e1 - 1 + 1 + (e1 + 1074)) by lia.
    rewrite (Z.pow_add_r 2 (e2 - e1 - 1 + 1) (e1 + 1074)) by lia.
    rewrite (Z.pow_add_r 2 (e2 - e1 - 1) 1) by lia.
    assert (0 < 2 ^ (e1 + 1074)) by (apply Z.pow_pos_nonneg; lia).
    assert (1 <= 2 ^ (e2 - e1 - 1)) by
      (change 1 with (2 ^ 0); apply Z.pow_le_mono_r; lia).
    change (2 ^ 1) with 2.
    set (P := 2 ^ (e1 + 1074)) in *. set (Q := 2 ^ (e2 - e1 - 1)) in *.
    assert (Hm : Z.pos m1 < 2 * Z.pos m2) by lia.
    apply Z.lt_le_trans with (2 * Z.pos m2 * P).
    + apply Z.mul_lt_mono_pos_r; lia.
    + replace (Z.pos m2 * (Q * 2 * P)) with (2 * Z.pos m2 * P * Q) by ring.
      assert (0 < 2 * Z.pos m2 * P) by lia. nia.
  - apply Z.mul_lt_mono_pos_r; [apply Z.pow_pos_nonneg; lia | lia].
Qed.

Lemma magnitude_bound (m : positive) (e : Z) :
  bounded prec emax m e = true →
  0 < Z.pos m * 2 ^ (e + 1074) < 2 ^ 2100.
Proof.
  intros (R & U & _)%bounded_range. split.
  - apply Z.mul_pos_pos; [lia | apply Z.pow_pos_nonneg; lia].
  - assert (2 ^ (e + 1074) <= 2 ^ 2045) by (apply Z.pow_le_mono_r; lia).
    assert (0 < 2 ^ (e + 1074)) by (apply Z.pow_pos_nonneg; lia).
    change (2 ^ 2100) with (2 ^ 53 * 2 ^ 2045 * 2 ^ 2).
    assert (0 < 2 ^ 2045) by (apply Z.pow_pos_nonneg; lia).
    nia.
Qed.

Lemma ltb_float_key (a b : float) :
  PrimFloat.ltb a b = true →
  ∃ x y, float_key a = Some x ∧ float_key b = Some y ∧ x < y.
Proof.
  rewrite FloatAxioms.ltb_spec. unfold float_key, SFltb.
  pose proof (Prim2SF_valid a) as Va. pose proof (Prim2SF_valid b) as Vb.
  destruct (Prim2SF a) as [sa|sa| |sa ma ea], (Prim2SF b) as [sb|sb| |sb mb eb];
    simpl in Va, Vb |- *; try discriminate.
  all: try (pose proof (magnitude_bound _ _ Va) as Ba).
  all: try (pose proof (magnitude_bound _ _ Vb) as Bb).
  all: try (destruct sa); try (destruct sb); try discriminate.
  all: intros Hc; eexists _, _; split; [reflexivity|split; [reflexivity|]].
  all: rewrite ?Pos2Z.opp_pos in *; try lia.
  all: try (assert (0 < 2 ^ 2100) by (apply Z.pow_pos_nonneg; lia); lia).
  - (* both negative *)
    enough (Z.pos mb * 2 ^ (eb + 1074) < Z.pos ma * 2 ^ (ea + 1074)) by lia.
    apply magnitude_lt; [done..|].
    change (Pos.compare_cont Eq ma mb) with (ma ?= mb)%positive in Hc.
    destruct (Z.compare_spec ea eb) as [->| |]; [right|discriminate|left; lia].
    split; [done|].
    destruct (Pos.compare_spec ma mb); simpl in Hc; try discriminate. lia.
  - (* both positive *)
    apply magnitude_lt; [done..|].
    change (Pos.compare_cont Eq ma mb) with (ma ?= mb)%positive in Hc.
    destruct (Z.compare_spec ea eb) as [->| |]; [right|left; lia|discriminate].
    split; [done|].
    destruct (Pos.compare_spec ma mb); simpl in Hc; try discriminate. lia.
Qed.

End FloatOrder.

(** ** [GET /api/ipads]: the filter and its result *)

Section ListFilter.
Context {ext : Externals} {eng : RegexEngine}.

(** The range the handler attaches to [display_size]. *)
Lemma filter_dict_lookup q chip mn mx (k : string) :
  filter_dict q chip mn mx !! k =
    if decide (k = "display_size") then
      if is_not_None mn || is_not_None mx then
        Some (VDict
          (from_option (fun x => <["$lte" := VFloat x]>) id mx
            (from_option (fun x => <["$gte" := VFloat x]>) id mn ∅)))
      else None
    else if decide (k = "chip") then
      if present chip then Some (VStr (default "" chip)) else None
    else if decide (k = "name") then
      if present q then
        Some (VDict {[ "$regex" := VStr (default "" q);
                       "$options" := VStr "i" ]})
      else None
    else None.
Proof.
  unfold filter_dict.
  destruct (present q), (present chip), mn as [x|], mx as [y|]; simpl;
    repeat case_decide; by simplify_map_eq.
Qed.

Lemma read_range (lo hi : option float) :
  read_constraint
    (VDict (from_option (fun x => <["$lte" := VFloat x]>) id hi
             (from_option (fun x => <["$gte" := VFloat x]>) id lo ∅)))
  = Some (CRange lo hi).
Proof. destruct lo, hi; simpl; by simplify_map_eq. Qed.

Lemma filter_none (f : dict) (l : list dict) :
  (∀ d, d ∈ l → ¬ doc_matches f d) → filter (doc_matches f) l = [].
Proof.
  induction l as [|d l IH]; intros Hl; [done|].
  rewrite filter_cons_False by (apply Hl; left).
  apply IH. intros d' Hd'. apply Hl. by right.
Qed.

Lemma list_ipads_ok (st : store) q chip mn mx :
  available st = true → ge0 mn = true → ge0 mx = true →
  well_formed (filter_dict q chip mn mx) →
  list_ipads (Some st) q chip mn mx =
    Ok (map serialize_doc
          (filter (doc_matches (filter_dict q chip mn mx)) (ipad st))).
Proof.
  intros Ha Hmn Hmx Hwf. unfold list_ipads, get_documents.
  rewrite Hmn, Hmx, Ha. simpl. by rewrite bool_decide_eq_true_2.
Qed.

(** The filter of the handler is one the store can read as soon as the
    query, when there is one, is a pattern of the fragment. *)
Lemma filter_dict_well_formed q chip mn mx :
  (∀ s, q = Some s → s ≠ ""%string → is_Some (regex_compile s true)) →
  well_formed (filter_dict q chip mn mx).
Proof.
  intros Hq. apply map_Forall_lookup. intros k v.
  rewrite filter_dict_lookup. repeat case_decide.
  - destruct (_ || _); [|done]. intros [= <-]. by rewrite read_range.
  - destruct (present chip); [|done]. by intros [= <-].
  - destruct q as [s|]; [|done]. simpl.
    destruct (String.eqb_spec s ""); [done|]. simpl. intros [= <-].
    destruct (Hq s eq_refl ltac:(done)) as [test Ha].
    unfold read_constraint. rewrite lookup_insert_eq.
    rewrite lookup_insert_ne, lookup_singleton_eq by done. simpl.
    by rewrite Ha.
  - done.
Qed.

Lemma list_ipads_unfiltered (st : store) :
  available st = true →
  list_ipads (Some st) None None None None = Ok (map serialize_doc (ipad st)).
Proof.
  intros Ha. rewrite list_ipads_ok by (done || apply map_Forall_empty).
  f_equal. f_equal. induction (ipad st) as [|d l IH]; [done|].
  rewrite filter_cons_True; [by rewrite IH|]. apply map_Forall_empty.
Qed.

(** X18: a record that was just created is listed, after the earlier
    ones, with its identifier under [id], and without [_id]. *)
Lemma create_then_list (st : store) (model : IPad) :
  available st = true →
  ∃ st' o out,
    create_ipad (Some st) model
      = (Ok ({[ "id" := VStr (oid_hex o) ]} : dict), Some st') ∧
    list_ipads (Some st') None None None None
      = Ok (map serialize_doc (ipad st) ++ [out]) ∧
    out !! "id" = Some (VStr (oid_hex o)) ∧
    oid_hex o ≠ ""%string ∧
    out !! "_id" = None ∧
    out !! "name" = Some (VStr (name model)).
Proof.
  intros Ha. unfold create_ipad, create_document. rewrite Ha.
  set (o := mk_oid (next_oid st)).
  set (d := <["_id" := VOid o]> (model_dump model)).
  eexists _, o, (serialize_doc d). split; [reflexivity|].
  rewrite list_ipads_unfiltered by done. simpl.
  rewrite map_app. split; [done|].
  assert (Hid : d !! "_id" = Some (VOid o)) by apply lookup_insert_eq.
  rewrite !(serialize_doc_lookup _ _ _ Hid).
  by split_and!.
Qed.

(** No display size lies in an inverted range. *)
Lemma inverted_range_holds_nothing (X Y : float) (field : option value) :
  PrimFloat.ltb Y X = true →
  holds (CRange (Some X) (Some Y)) field = false.
Proof.
  intros (y & x & Hy & Hx & Hlt)%ltb_float_key.
  unfold holds. destruct field as [v|]; [|done].
  destruct (number_key v) as [k|]; [|done]. simpl. rewrite Hx, Hy.
  destruct k as [k|]; simpl; [|done].
  apply andb_false_iff.
  destruct (Z.leb_spec x k); [right; apply Z.leb_gt; lia | by left].
Qed.

(** C9: an empty string for [q] or for [chip] is treated as an absent
    parameter: the filter, and so the response, are those of the request
    without it; a display bound of zero is present all the same and is
    written into the range of the filter. *)
Theorem empty_string_absent_zero_bound_present (db : option store)
    (q chip : option string) (mn mx : option float) :
  filter_dict (Some ""%string) chip mn mx = filter_dict None chip mn mx ∧
  filter_dict q (Some ""%string) mn mx = filter_dict q None mn mx ∧
  list_ipads db (Some ""%string) chip mn mx = list_ipads db None chip mn mx ∧
  list_ipads db q (Some ""%string) mn mx = list_ipads db q None mn mx ∧
  (∃ rng, filter_dict q chip (Some 0%float) mx !! "display_size"
            = Some (VDict rng) ∧ rng !! "$gte" = Some (VFloat 0)) ∧
  (∃ rng, filter_dict q chip mn (Some 0%float) !! "display_size"
            = Some (VDict rng) ∧ rng !! "$lte" = Some (VFloat 0)).
Proof.
  repeat split; try reflexivity.
  - eexists. rewrite filter_dict_lookup. simpl. split; [reflexivity|].
    destruct mx; simpl; by simplify_map_eq.
  - eexists. rewrite filter_dict_lookup. simpl.
    rewrite orb_true_r. split; [reflexivity|]. by simplify_map_eq.
Qed.

(** A query the store's engine rejects makes the filter unreadable. *)
Lemma filter_dict_rejected (s : string) chip mn mx :
  s ≠ ""%string → regex_compile s true = None →
  ¬ well_formed (filter_dict (Some s) chip mn mx).
Proof.
  intros Hs Hc Hwf.
  assert (Hf : filter_dict (Some s) chip mn mx !! "name"
    = Some (VDict {[ "$regex" := VStr s; "$options" := VStr "i" ]})).
  { rewrite filter_dict_lookup. simpl.
    by destruct (String.eqb_spec s ""). }
  destruct (map_Forall_lookup_1 _ _ _ _ Hwf Hf) as [c Hr].
  unfold read_constraint in Hr. rewrite lookup_insert_eq in Hr.
  rewrite lookup_insert_ne, lookup_singleton_eq in Hr by done.
  simpl in Hr. by rewrite Hc in Hr.
Qed.

(** C6 (as amended): on a store that answers, for display bounds that
    pass the declared constraint: a parameter that is absent puts no
    constraint in the filter (with none at all the filter is empty and
    every record is returned). When the query, if there is one, is a
    pattern the store accepts: when no record satisfies the filter the
    endpoint answers with the empty sequence, and a minimum above the
    maximum is accepted and answered with the empty sequence. When the
    query is a pattern the store rejects, the store's error leaves the
    handler (status 500), whatever the other parameters and the stored
    records. *)
Theorem list_ipads_absent_parameters_and_empty_result (st : store)
    (q chip : option string) (mn mx : option float) :
  available st = true → ge0 mn = true → ge0 mx = true →
  let f := filter_dict q chip mn mx in
  (q = None → f !! "name" = None ∧ ∀ d, field_holds f "name" d = true) ∧
  (chip = None → f !! "chip" = None ∧ ∀ d, field_holds f "chip" d = true) ∧
  (mn = None → mx = None →
     f !! "display_size" = None ∧ ∀ d, field_holds f "display_size" d = true) ∧
  (mn = None → ∀ rng, f !! "display_size" = Some (VDict rng) →
     rng !! "$gte" = None) ∧
  (mx = None → ∀ rng, f !! "display_size" = Some (VDict rng) →
     rng !! "$lte" = None) ∧
  (q = None → chip = None → mn = None → mx = None →
     f = ∅ ∧ list_ipads (Some st) q chip mn mx
             = Ok (map serialize_doc (ipad st))) ∧
  ((∀ s, q = Some s → s ≠ ""%string → is_Some (regex_compile s true)) →
     ((∀ d, d ∈ ipad st → ¬ doc_matches f d) →
        list_ipads (Some st) q chip mn mx = Ok []) ∧
     (∀ X Y, mn = Some X → mx = Some Y → PrimFloat.ltb Y X = true →
        list_ipads (Some st) q chip mn mx = Ok [])) ∧
  (∀ s, q = Some s → s ≠ ""%string → regex_compile s true = None →
     list_ipads (Some st) q chip mn mx = Raise PyMongoError ∧
     status_of 200 (list_ipads (Some st) q chip mn mx) = 500).
Proof.
  intros Ha Hmn Hmx f.
  assert (Hlk : ∀ k, f !! k = None → ∀ d, field_holds f k d = true).
  { intros k Hk d. unfold field_holds. by rewrite Hk. }
  split_and!.
  - intros ->. assert (f !! "name" = None) by
      (unfold f; by rewrite filter_dict_lookup). auto.
  - intros ->. assert (f !! "chip" = None) by
      (unfold f; by rewrite filter_dict_lookup). auto.
  - intros -> ->. assert (f !! "display_size" = None) by
      (unfold f; by rewrite filter_dict_lookup). auto.
  - intros -> rng. unfold f. rewrite filter_dict_lookup. simpl.
    destruct mx; simpl; intros [= <-]; by simplify_map_eq.
  - intros -> rng. unfold f. rewrite filter_dict_lookup. simpl.
    destruct mn; simpl; intros [= <-]; by simplify_map_eq.
  - intros -> -> -> ->. split; [done|]. by apply list_ipads_unfiltered.
  - intros Hq.
    pose proof (filter_dict_well_formed q chip mn mx Hq) as Hwf.
    pose proof (list_ipads_ok st q chip mn mx Ha Hmn Hmx Hwf) as Hlist.
    fold f in Hlist. split.
    + intros Hnone. rewrite Hlist. by rewrite filter_none.
    + intros X Y -> -> Hlt. rewrite Hlist. rewrite filter_none; [done|].
      intros d _ Hd.
      assert (Hf : f !! "display_size" = Some (VDict
        (<["$lte" := VFloat Y]> (<["$gte" := VFloat X]> ∅)))).
      { unfold f. by rewrite filter_dict_lookup. }
      pose proof (map_Forall_lookup_1 _ _ _ _ Hd Hf) as Hh. simpl in Hh.
      unfold field_holds in Hh. rewrite Hf in Hh.
      assert (Hr : read_constraint (VDict
        (<["$lte" := VFloat Y]> (<["$gte" := VFloat X]> ∅)))
        = Some (CRange (Some X) (Some Y)))
        by exact (read_range (Some X) (Some Y)).
      rewrite Hr in Hh. cbn [from_option] in Hh.
      rewrite (inverted_range_holds_nothing X Y _ Hlt) in Hh. discriminate.
  - intros s -> Hs Hc.
    assert (Hl : list_ipads (Some st) (Some s) chip mn mx
                 = Raise PyMongoError).
    { unfold list_ipads, get_documents. rewrite Hmn, Hmx, Ha. simpl.
      rewrite bool_decide_eq_false_2; [done|].
      by apply filter_dict_rejected. }
    by rewrite Hl.
Qed.

End ListFilter.

(** ** The scoring heuristic *)

Lemma float_mul_comm (a b : float) : (a * b)%float = (b * a)%float.
Proof.
  apply Prim2SF_inj. rewrite !FloatAxioms.mul_spec. unfold SF64mul, SFmul.
  destruct (Prim2SF a) as [sa|sa| |sa ma ea], (Prim2SF b) as [sb|sb| |sb mb eb];
    try reflexivity; rewrite (xorb_comm sa sb); try reflexivity.
  by rewrite Pos.mul_comm, Z.add_comm.
Qed.

(** A float that is not NaN is at least itself. *)
Lemma float_leb_refl (f : float) : is_nan f = false → PrimFloat.leb f f = true.
Proof.
  unfold is_nan. intros Hf%negb_false_iff.
  rewrite FloatAxioms.eqb_spec in Hf. rewrite FloatAxioms.leb_spec.
  unfold SFeqb in Hf. unfold SFleb.
  by destruct (SFcompare (Prim2SF f) (Prim2SF f)) as [[]|].
Qed.

Lemma py_ge_refl (s : num) : num_is_nan s = false → py_ge s s = true.
Proof.
  destruct s as [z|f]; simpl; [intros _; apply Z.leb_refl|].
  apply float_leb_refl.
Qed.

Lemma float_of_Z_small (z : Z) :
  0 <= z < 2 ^ 63 → float_of_Z z = Ok (of_uint63 (Uint63.of_Z z)).
Proof.
  intros Hz. unfold float_of_Z.
  destruct (Z.ltb_spec (Z.abs z) (2 ^ 63)); [|lia].
  destruct (Z.ltb_spec z 0); [lia|done].
Qed.

Lemma float_of_Z_int64 (z : Z) :
  Z.abs z < 2 ^ 63 → ∃ f, float_of_Z z = Ok f.
Proof.
  intros Hz. unfold float_of_Z.
  destruct (Z.ltb_spec (Z.abs z) (2 ^ 63)); [eauto|lia].
Qed.

Lemma py_add_float_r (a : num) (t f : float) :
  float_of_num a = Ok t → py_add a (NFloat f) = Ok (NFloat (t + f)).
Proof.
  intros Ht. destruct a as [z|g]; simpl in *; [by rewrite Ht|].
  by injection Ht as ->.
Qed.

Lemma chip_score_lookup (k : string) :
  chip_score !! k =
    if String.eqb k "M4" then Some (NInt 5)
    else if String.eqb k "M3" then Some (NFloat 4.5)
    else if String.eqb k "M2" then Some (NInt 4)
    else if String.eqb k "M1" then Some (NFloat 3.5)
    else if String.eqb k "A15" then Some (NInt 3)
    else if String.eqb k "A14" then Some (NFloat 2.5)
    else None.
Proof.
  unfold chip_score.
  destruct (String.eqb_spec k "M4") as [->|?]; [reflexivity|].
  destruct (String.eqb_spec k "M3") as [->|?]; [reflexivity|].
  destruct (String.eqb_spec k "M2") as [->|?]; [reflexivity|].
  destruct (String.eqb_spec k "M1") as [->|?]; [reflexivity|].
  destruct (String.eqb_spec k "A15") as [->|?]; [reflexivity|].
  destruct (String.eqb_spec k "A14") as [->|?]; [reflexivity|].
  rewrite !lookup_insert_ne by done. by rewrite lookup_singleton_ne.
Qed.

(** The tier the code looks up is the tier of the specification's table,
    and adding it to the initial [0] leaves it as it is. *)
Lemma chip_tier_value (c : string) :
  let t := default (NInt 2) (chip_score !! upper c) in
  float_of_num t = Ok (spec_chip_tier_score c) ∧ py_add (NInt 0) t = Ok t.
Proof.
  simpl. rewrite chip_score_lookup. unfold spec_chip_tier_score.
  repeat (destruct (String.eqb _ _); [by split|]). by split.
Qed.

Section Score.
Context {ext : Externals}.

Lemma score_unfold (x : dict) (t0 t1 t2 t3 b1 b2 b3 b4 : num) :
  chip_tier x = Ok t0 → py_add (NInt 0) t0 = Ok b1 →
  display_term x = Ok t1 → py_add b1 t1 = Ok b2 →
  cellular_term x = Ok t2 → py_add b2 t2 = Ok b3 →
  storage_term x = Ok t3 → py_add b3 t3 = Ok b4 →
  score x = Ok b4.
Proof.
  intros E0 A0 E1 A1 E2 A2 E3 A3. unfold score.
  rewrite E0; cbn [mbind res_bind]. rewrite A0; cbn [mbind res_bind].
  rewrite E1; cbn [mbind res_bind]. rewrite A1; cbn [mbind res_bind].
  rewrite E2; cbn [mbind res_bind]. rewrite A2; cbn [mbind res_bind].
  rewrite E3; cbn [mbind res_bind]. by rewrite A3.
Qed.

Lemma cellular_term_value (x : dict) :
  cellular_term x =
    Ok (NFloat (if truthy (dict_get x "cellular" VNone) then 0.3 else 0)).
Proof. unfold cellular_term. by destruct (truthy _). Qed.

(** On a record with typed attributes the code computes the formula of
    the specification. *)
Lemma score_formula (x : dict) c d cell opts :
  scored_fields x c d cell opts →
  score x = Ok (NFloat (spec_score c d cell opts)).
Proof.
  intros (Hc & Hd & Hcell & Ho & Hlen).
  destruct (chip_tier_value c) as [Ht Hadd].
  eapply score_unfold.
  - unfold chip_tier, dict_get. rewrite Hc. reflexivity.
  - exact Hadd.
  - unfold display_term, dict_get. rewrite Hd. reflexivity.
  - apply py_add_float_r, Ht.
  - apply cellular_term_value.
  - reflexivity.
  - unfold storage_term, dict_get. rewrite Ho. simpl.
    rewrite (float_of_Z_small (Z.of_nat (length opts))) by lia. reflexivity.
  - simpl. unfold spec_score, spec_count, dict_get. rewrite Hcell. simpl.
    by rewrite (float_mul_comm 0.1).
Qed.

End Score.

(** ** Letter case *)

Lemma same_letter_upper_char (a b : ascii) :
  same_letter a b = true → upper_char a = upper_char b.
Proof.
  unfold same_letter. intros Hs.
  apply orb_true_iff in Hs as [Hs|Hs]; [apply orb_true_iff in Hs as [Hs|Hs]|].
  - by apply Ascii.eqb_eq in Hs as ->.
  - apply andb_true_iff in Hs as [_ ->%Ascii.eqb_eq].
    by destruct a as [[] [] [] [] [] [] [] []].
  - apply andb_true_iff in Hs as [Hu ->%Ascii.eqb_eq]. revert Hu.
    by destruct a as [[] [] [] [] [] [] [] []].
Qed.

Lemma same_letter_of_upper (a : ascii) : same_letter a (upper_char a) = true.
Proof.
  unfold same_letter, upper_char. destruct (is_lower a); simpl.
  - by rewrite Ascii.eqb_refl, orb_true_r.
  - by rewrite Ascii.eqb_refl.
Qed.

Lemma case_variant_upper (s t : string) :
  case_variant s t = true → upper s = upper t.
Proof.
  revert t. induction s as [|a s IH]; intros [|b t]; simpl; try done.
  intros [Hab Hst]%andb_true_iff.
  by rewrite (same_letter_upper_char _ _ Hab), (IH _ Hst).
Qed.

Lemma case_variant_of_upper (s : string) : case_variant s (upper s) = true.
Proof.
  induction s as [|a s IH]; simpl; [done|].
  by rewrite same_letter_of_upper, IH.
Qed.

(** ** The exceptions of the arithmetic *)

Lemma bind_raise {A B} (m : res A) (f : A → res B) (e : exc) :
  m ≫= f = Raise e → m = Raise e ∨ ∃ a, m = Ok a ∧ f a = Raise e.
Proof. destruct m as [a|e']; cbn; [eauto|]. intros [= ->]. by left. Qed.

Lemma float_of_Z_raises (z : Z) (e : exc) :
  float_of_Z z = Raise e → builtin_error e.
Proof.
  unfold float_of_Z. destruct (_ <? _); [done|].
  by destruct (is_infinity _); [intros [= <-]|].
Qed.

Lemma py_add_raises (a b : num) (e : exc) :
  py_add a b = Raise e → builtin_error e.
Proof.
  destruct a as [x|f], b as [y|g]; cbn; try done.
  all: destruct (float_of_Z _) as [?|e'] eqn:E; cbn; try done.
  all: intros [= <-]; by eapply float_of_Z_raises.
Qed.

Lemma py_mul_raises (a b : num) (e : exc) :
  py_mul a b = Raise e → builtin_error e.
Proof.
  destruct a as [x|f], b as [y|g]; cbn; try done.
  all: destruct (float_of_Z _) as [?|e'] eqn:E; cbn; try done.
  all: intros [= <-]; by eapply float_of_Z_raises.
Qed.

Section ScoreRaises.
Context {ext : Externals}.

Lemma py_float_raises (v : value) (e : exc) :
  py_float v = Raise e → builtin_error e.
Proof.
  destruct v; simpl; try (by intros [= <-]).
  - apply float_of_Z_raises.
  - by destruct (float_of_str s); [|intros [= <-]].
Qed.

Lemma chip_tier_raises (x : dict) (e : exc) :
  chip_tier x = Raise e → builtin_error e.
Proof.
  unfold chip_tier. destruct (dict_get x "chip" _); cbn; by intros [= <-].
Qed.

Lemma display_term_raises (x : dict) (e : exc) :
  display_term x = Raise e → builtin_error e.
Proof.
  unfold display_term.
  intros [Hr|(? & _ & Hr)]%bind_raise;
    [by eapply py_float_raises | by eapply py_mul_raises].
Qed.

Lemma storage_term_raises (x : dict) (e : exc) :
  storage_term x = Raise e → builtin_error e.
Proof.
  unfold storage_term. intros [Hr|(? & _ & Hr)]%bind_raise.
  - destruct (dict_get x "storage_options" _); cbn in Hr;
      by try injection Hr as <-.
  - by eapply py_mul_raises.
Qed.

Lemma score_raises (x : dict) (e : exc) :
  score x = Raise e → builtin_error e.
Proof.
  unfold score. intros Hs.
  apply bind_raise in Hs as [Hs|(t0 & _ & Hs)]; [by eapply chip_tier_raises|].
  apply bind_raise in Hs as [Hs|(b1 & _ & Hs)]; [by eapply py_add_raises|].
  apply bind_raise in Hs as [Hs|(t1 & _ & Hs)]; [by eapply display_term_raises|].
  apply bind_raise in Hs as [Hs|(b2 & _ & Hs)]; [by eapply py_add_raises|].
  apply bind_raise in Hs as [Hs|(t2 & _ & Hs)];
    [unfold cellular_term in Hs; by eapply py_mul_raises|].
  apply bind_raise in Hs as [Hs|(b3 & _ & Hs)]; [by eapply py_add_raises|].
  apply bind_raise in Hs as [Hs|(t3 & _ & Hs)]; [by eapply storage_term_raises|].
  apply bind_raise in Hs as [Hs|(b4 & _ & Hs)]; [by eapply py_add_raises|].
  done.
Qed.

End ScoreRaises.


Section Compare.
Context {ext : Externals}.

(** [score] reads four attributes of the record and nothing else. *)
Lemma score_ext (x y : dict) :
  chip_tier x = chip_tier y →
  dict_get x "display_size" (VInt 0) = dict_get y "display_size" (VInt 0) →
  dict_get x "cellular" VNone = dict_get y "cellular" VNone →
  dict_get x "storage_options" (VList []) =
    dict_get y "storage_options" (VList []) →
  score x = score y.
Proof.
  intros E1 E2 E3 E4.
  unfold score, display_term, cellular_term, storage_term.
  by rewrite E1, E2, E3, E4.
Qed.

Lemma dict_get_insert_ne (x : dict) (k k' : string) (v dflt : value) :
  k ≠ k' → dict_get (<[k := v]> x) k' dflt = dict_get x k' dflt.
Proof. intros Hk. unfold dict_get. by rewrite lookup_insert_ne. Qed.

Lemma dict_get_insert_default (x : dict) (k : string) (dflt : value) :
  x !! k = None → dict_get (<[k := dflt]> x) k dflt = dict_get x k dflt.
Proof.
  intros Hk. unfold dict_get. by rewrite lookup_insert_eq, Hk.
Qed.

Lemma scored_fields_serialize (d : dict) c ds cell opts :
  scored_fields d c ds cell opts →
  scored_fields (serialize_doc d) c ds cell opts.
Proof.
  intros (Hc & Hd & Hcell & Ho & Hlen). unfold scored_fields.
  destruct (d !! "_id") as [i|] eqn:Hid.
  - rewrite !(serialize_doc_lookup _ _ _ Hid).
    repeat case_decide; try done. by rewrite Hc, Hd, Hcell, Ho.
  - rewrite !(serialize_doc_no_id _ _ Hid). by rewrite Hc, Hd, Hcell, Ho.
Qed.

Lemma find_one_found (st : store) (o : ObjectId) (d : dict) :
  find_one st o = Ok (Some d) →
  available st = true ∧ In d (ipad st) ∧ is_Some (d !! "_id").
Proof.
  unfold find_one. destruct (available st); [|done].
  intros [= [Hin Hid]%find_some]. split_and!; [done..|].
  unfold has_id in Hid. destruct (d !! "_id"); [eauto|done].
Qed.

Lemma found_not_missing (st : store) (o : ObjectId) (d : dict) :
  find_one st o = Ok (Some d) → missing (Some d) = false.
Proof.
  intros (_ & _ & [i Hi])%find_one_found. unfold missing.
  by rewrite (truthy_dict_lookup _ _ _ Hi).
Qed.

(** The handler on two records that are found. *)
Lemma compare_ipads_found (st : store) (p : CompareRequest)
    (oa ob : ObjectId) (a_doc b_doc : dict) (sa sb : num) :
  ObjectId_of_str (payload_a p) = Some oa →
  ObjectId_of_str (payload_b p) = Some ob →
  find_one st oa = Ok (Some a_doc) →
  find_one st ob = Ok (Some b_doc) →
  score (serialize_doc a_doc) = Ok sa →
  score (serialize_doc b_doc) = Ok sb →
  compare_ipads (Some st) p =
    Ok {[ "a" := VDict (serialize_doc a_doc);
          "b" := VDict (serialize_doc b_doc);
          "scores" := VDict {[ "a" := value_of_num sa;
                               "b" := value_of_num sb ]};
          "recommended" := VStr (if py_ge sa sb then "A" else "B") ]}.
Proof.
  intros Ha Hb Fa Fb Sa Sb. unfold compare_ipads, ObjectId_new.
  rewrite Ha, Hb. cbn [mbind res_bind]. rewrite Fa. cbn [mbind res_bind].
  rewrite Fb. cbn [mbind res_bind].
  rewrite (found_not_missing _ _ _ Fa), (found_not_missing _ _ _ Fb).
  cbn [orb from_option id]. rewrite Sa. cbn [mbind res_bind]. rewrite Sb.
  reflexivity.
Qed.

(** Every successful comparison is of two records that were found. *)
Lemma compare_ipads_ok_inv (st : store) (p : CompareRequest) (resp : dict) :
  compare_ipads (Some st) p = Ok resp →
  ∃ oa ob a_doc b_doc sa sb,
    ObjectId_of_str (payload_a p) = Some oa ∧
    ObjectId_of_str (payload_b p) = Some ob ∧
    find_one st oa = Ok (Some a_doc) ∧
    find_one st ob = Ok (Some b_doc) ∧
    score (serialize_doc a_doc) = Ok sa ∧
    score (serialize_doc b_doc) = Ok sb.
Proof.
  unfold compare_ipads, ObjectId_new.
  destruct (ObjectId_of_str (payload_a p)) as [oa|]; [|done].
  cbn [mbind res_bind].
  destruct (find_one st oa) as [a_doc|] eqn:Fa; [|done]. cbn [mbind res_bind].
  destruct (ObjectId_of_str (payload_b p)) as [ob|]; [|done].
  cbn [mbind res_bind].
  destruct (find_one st ob) as [b_doc|] eqn:Fb; [|done]. cbn [mbind res_bind].
  destruct a_doc as [a_doc|]; [|done]. destruct b_doc as [b_doc|].
  2: { cbn [missing]. by rewrite orb_true_r. }
  destruct (missing (Some a_doc) || missing (Some b_doc)); [done|].
  cbn [from_option id].
  destruct (score (serialize_doc a_doc)) as [sa|] eqn:Sa; [|done].
  destruct (score (serialize_doc b_doc)) as [sb|] eqn:Sb; [|done].
  intros _. by exists oa, ob, a_doc, b_doc, sa, sb.
Qed.

(** What the handler answers when the connection does not answer. *)
Lemma compare_ipads_unavailable (st : store) (p : CompareRequest) :
  available st = false →
  compare_ipads (Some st) p = Raise (HTTPException 400 "Invalid id format").
Proof.
  intros Hav. unfold compare_ipads, ObjectId_new, find_one. rewrite Hav.
  by destruct (ObjectId_of_str (payload_a p)).
Qed.

(** X7: with a store that answers, the error responses of the handler
    are decided by the shape of the identifiers and the presence of the
    records: 400 exactly when an identifier is malformed, 404 exactly
    when both are well-formed and a record is not found. *)
Lemma compare_ipads_errors (st : store) (p : CompareRequest) :
  available st = true →
  let malformed :=
    ObjectId_of_str (payload_a p) = None ∨ ObjectId_of_str (payload_b p) = None in
  let absent :=
    ∃ oa ob, ObjectId_of_str (payload_a p) = Some oa ∧
             ObjectId_of_str (payload_b p) = Some ob ∧
             (find_one st oa = Ok None ∨ find_one st ob = Ok None) in
  (malformed ↔
     compare_ipads (Some st) p = Raise (HTTPException 400 "Invalid id format")) ∧
  (absent ↔
     compare_ipads (Some st) p
       = Raise (HTTPException 404 "One or both models not found")).
Proof.
  intros Hav malformed absent. subst malformed absent.
  assert (Hfind : ∀ o, ∃ r, find_one st o = Ok r ∧
            (missing r = true → r = None)).
  { intros o. eexists. unfold find_one. rewrite Hav. split; [done|].
    destruct (List.find (has_id o) (ipad st)) as [d|] eqn:Hf; [|done].
    intros Hm. exfalso.
    assert (Hd : find_one st o = Ok (Some d)) by (unfold find_one; by rewrite Hav, Hf).
    by rewrite (found_not_missing _ _ _ Hd) in Hm. }
  unfold compare_ipads, ObjectId_new.
  destruct (ObjectId_of_str (payload_a p)) as [oa|]; cbn [mbind res_bind].
  2: { split; [naive_solver|]. split; [|done]. by intros (?&?&?&_). }
  destruct (Hfind oa) as (ra & Ea & Hra). rewrite Ea. cbn [mbind res_bind].
  destruct (ObjectId_of_str (payload_b p)) as [ob|]; cbn [mbind res_bind].
  2: { split; [naive_solver|]. split; [|done]. by intros (?&?&?&?&_). }
  destruct (Hfind ob) as (rb & Eb & Hrb). rewrite Eb. cbn [mbind res_bind].
  destruct (missing ra || missing rb) eqn:Hm.
  - split; [split; [by intros [|]|done]|]. split; [done|]. intros _.
    exists oa, ob. split_and!; [done..|].
    apply orb_true_iff in Hm as [Hm|Hm]; [left|right].
    + by rewrite Ea, (Hra Hm).
    + by rewrite Eb, (Hrb Hm).
  - apply orb_false_iff in Hm as [Hma Hmb]. split.
    + split; [by intros [|]|]. intros Hr.
      apply bind_raise in Hr as [Hr|(? & _ & [Hr|(? & _ & ?)]%bind_raise)];
        [by apply score_raises in Hr..|done].
    + split.
      * intros (oa' & ob' & [= <-] & [= <-] & [Ha|Hb]).
        -- rewrite Ea in Ha. by injection Ha as ->.
        -- rewrite Eb in Hb. by injection Hb as ->.
      * intros Hr.
        apply bind_raise in Hr as [Hr|(? & _ & [Hr|(? & _ & ?)]%bind_raise)];
          [by apply score_raises in Hr..|done].
Qed.

(** C1: for two fetched records whose scored attributes have the types of
    the data model, the handler answers with the scores given by the
    formula of the specification, tier + display_size * 0.2 + (0.3 if
    cellular) + 0.1 * count; the tier table of the code is M4=5, M3=4.5,
    M2=4, M1=3.5, A15=3, A14=2.5; a record with chip M4, display size 11,
    cellular and three storage options scores exactly 7.8, one with chip
    A14, display size 10.9, cellular and two storage options exactly
    5.18. *)
Theorem compare_ipads_scores (st : store) (p : CompareRequest)
    (oa ob : ObjectId) (a_doc b_doc : dict)
    (ca : string) (da : float) (la : bool) (sa : list value)
    (cb : string) (db : float) (lb : bool) (sb : list value) :
  ObjectId_of_str (payload_a p) = Some oa →
  ObjectId_of_str (payload_b p) = Some ob →
  find_one st oa = Ok (Some a_doc) →
  find_one st ob = Ok (Some b_doc) →
  scored_fields a_doc ca da la sa →
  scored_fields b_doc cb db lb sb →
  (∃ resp, compare_ipads (Some st) p = Ok resp ∧
     resp !! "scores" =
       Some (VDict {[ "a" := VFloat (spec_score ca da la sa);
                      "b" := VFloat (spec_score cb db lb sb) ]})) ∧
  (chip_score !! "M4" = Some (NInt 5) ∧
   chip_score !! "M3" = Some (NFloat 4.5) ∧
   chip_score !! "M2" = Some (NInt 4) ∧
   chip_score !! "M1" = Some (NFloat 3.5) ∧
   chip_score !! "A15" = Some (NInt 3) ∧
   chip_score !! "A14" = Some (NFloat 2.5)) ∧
  (∀ x opts, scored_fields x "M4" 11 true opts → length opts = 3%nat →
     score x = Ok (NFloat 7.8)) ∧
  (∀ x opts, scored_fields x "A14" 10.9 true opts → length opts = 2%nat →
     score x = Ok (NFloat 5.18)).
Proof.
  intros Ha Hb Fa Fb Ta Tb. split_and!; try reflexivity.
  - pose proof (score_formula _ _ _ _ _
                  (scored_fields_serialize _ _ _ _ _ Ta)) as Sa.
    pose proof (score_formula _ _ _ _ _
                  (scored_fields_serialize _ _ _ _ _ Tb)) as Sb.
    rewrite (compare_ipads_found _ _ _ _ _ _ _ _ Ha Hb Fa Fb Sa Sb).
    eexists. split; [reflexivity|]. by simplify_map_eq.
  - intros x opts Hx Hlen. rewrite (score_formula _ _ _ _ _ Hx).
    unfold spec_score, spec_count. by rewrite Hlen.
  - intros x opts Hx Hlen. rewrite (score_formula _ _ _ _ _ Hx).
    unfold spec_score, spec_count. by rewrite Hlen.
Qed.

(** C2 (as amended): the recommendation of a successful comparison is "A"
    exactly when the score of the first record is at least the score of
    the second, and "B" otherwise; it is determined by the two fetched
    records; and for two identical records whose score is a number (not
    NaN) it is "A". *)
Theorem compare_ipads_recommendation (st : store) (p : CompareRequest)
    (resp : dict) :
  compare_ipads (Some st) p = Ok resp →
  ∃ oa ob a_doc b_doc sa sb,
    ObjectId_of_str (payload_a p) = Some oa ∧
    ObjectId_of_str (payload_b p) = Some ob ∧
    find_one st oa = Ok (Some a_doc) ∧
    find_one st ob = Ok (Some b_doc) ∧
    score (serialize_doc a_doc) = Ok sa ∧
    score (serialize_doc b_doc) = Ok sb ∧
    resp !! "recommended" = Some (VStr (if py_ge sa sb then "A" else "B")) ∧
    (py_ge sa sb = true ↔ resp !! "recommended" = Some (VStr "A")) ∧
    (py_ge sa sb = false ↔ resp !! "recommended" = Some (VStr "B")) ∧
    (a_doc = b_doc → num_is_nan sa = false →
       resp !! "recommended" = Some (VStr "A")).
Proof.
  intros Hr.
  destruct (compare_ipads_ok_inv _ _ _ Hr)
    as (oa & ob & a_doc & b_doc & sa & sb & Ha & Hb & Fa & Fb & Sa & Sb).
  exists oa, ob, a_doc, b_doc, sa, sb.
  rewrite (compare_ipads_found st p oa ob a_doc b_doc sa sb Ha Hb Fa Fb Sa Sb)
    in Hr.
  injection Hr as <-.
  assert (Hrec : ∀ r : string,
    ({[ "a" := VDict (serialize_doc a_doc);
        "b" := VDict (serialize_doc b_doc);
        "scores" := VDict {[ "a" := value_of_num sa; "b" := value_of_num sb ]};
        "recommended" := VStr r ]} : dict) !! "recommended" = Some (VStr r))
    by done.
  rewrite Hrec. split_and!; try done.
  - by destruct (py_ge sa sb).
  - by destruct (py_ge sa sb).
  - intros <- Hnan. rewrite Sa in Sb. injection Sb as <-.
    by rewrite (py_ge_refl _ Hnan).
Qed.

(** C3: the chip lookup ignores letter case: replacing the chip of a
    record by a string that differs from it only in letter case leaves
    the score unchanged (so "m4" scores as "M4"); and a chip that is none
    of M4, M3, M2, M1, A15, A14 in any letter case contributes tier 2. *)
Theorem chip_lookup_case_insensitive (x : dict) (c : string) :
  x !! "chip" = Some (VStr c) →
  (∀ c', case_variant c c' = true →
     score (<["chip" := VStr c']> x) = score x) ∧
  ((∀ k, k ∈ ["M4"; "M3"; "M2"; "M1"; "A15"; "A14"]%string →
      case_variant c k = false) →
   chip_tier x = Ok (NInt 2)) ∧
  (c = "M4"%string → score (<["chip" := VStr "m4"]> x) = score x).
Proof.
  intros Hc.
  assert (Hvar : ∀ c', case_variant c c' = true →
            score (<["chip" := VStr c']> x) = score x).
  { intros c' Hv. apply score_ext.
    - unfold chip_tier, dict_get. rewrite lookup_insert_eq, Hc. simpl.
      by rewrite (case_variant_upper _ _ Hv).
    - by apply dict_get_insert_ne.
    - by apply dict_get_insert_ne.
    - by apply dict_get_insert_ne. }
  split_and!; [done| |by intros ->; apply Hvar].
  intros Hk. unfold chip_tier, dict_get. rewrite Hc. simpl.
  rewrite chip_score_lookup.
  assert (Hne : ∀ k, k ∈ ["M4"; "M3"; "M2"; "M1"; "A15"; "A14"]%string →
            String.eqb (upper c) k = false).
  { intros k Hin. apply String.eqb_neq. intros <-.
    specialize (Hk _ Hin). by rewrite case_variant_of_upper in Hk. }
  rewrite !Hne; [done|set_solver..].
Qed.

(** C10: a missing chip is read as the empty string and gets tier 2, a
    missing display size is read as 0, a missing or false-like cellular
    flag contributes 0, missing storage options are read as the empty
    list; and a record whose scored attributes are each missing or of a
    type the arithmetic accepts gets a score, without error. *)
Theorem score_total_on_missing_attributes (x : dict) :
  (x !! "chip" = None →
     chip_tier x = Ok (NInt 2) ∧ score (<["chip" := VStr ""]> x) = score x) ∧
  (x !! "display_size" = None →
     display_term x = Ok (NFloat 0) ∧
     score (<["display_size" := VInt 0]> x) = score x) ∧
  ((x !! "cellular" = None ∨
    ∃ v, x !! "cellular" = Some v ∧ truthy v = false) →
     cellular_term x = Ok (NFloat 0)) ∧
  (x !! "storage_options" = None →
     storage_term x = Ok (NFloat 0) ∧
     score (<["storage_options" := VList []]> x) = score x) ∧
  (x !! "chip" = None → x !! "display_size" = None →
   x !! "cellular" = None → x !! "storage_options" = None →
     score x = Ok (NFloat 2)) ∧
  (scorable x → ∃ s, score x = Ok (NFloat s)).
Proof.
  split_and!.
  - intros Hc. split; [unfold chip_tier, dict_get; by rewrite Hc|].
    apply score_ext; [|by apply dict_get_insert_ne..].
    unfold chip_tier. by rewrite dict_get_insert_default.
  - intros Hd. split; [unfold display_term, dict_get; by rewrite Hd|].
    apply score_ext;
      [unfold chip_tier; by rewrite dict_get_insert_ne| |
       by apply dict_get_insert_ne..].
    by apply dict_get_insert_default.
  - intros Hcell. rewrite cellular_term_value. unfold dict_get.
    destruct Hcell as [->|(v & -> & Hv)]; simpl; [done|by rewrite Hv].
  - intros Ho. split; [unfold storage_term, dict_get; by rewrite Ho|].
    apply score_ext;
      [unfold chip_tier; by rewrite dict_get_insert_ne|
       by apply dict_get_insert_ne..|].
    by apply dict_get_insert_default.
  - intros Hc Hd Hcell Ho.
    unfold score, chip_tier, display_term, cellular_term, storage_term,
      dict_get.
    by rewrite Hc, Hd, Hcell, Ho.
  - intros (Hc & Hd & Ho).
    assert (∃ c, dict_get x "chip" (VStr "") = VStr c) as [c Ec].
    { unfold dict_get. destruct (x !! "chip") as [[]|]; simpl; try done; eauto. }
    assert (∃ d, py_float (dict_get x "display_size" (VInt 0)) = Ok d)
      as [d Ed].
    { unfold dict_get.
      destruct (x !! "display_size") as [[]|]; simpl; try done; eauto.
      by apply float_of_Z_int64. }
    assert (∃ l, dict_get x "storage_options" (VList []) = VList l ∧
                 Z.of_nat (length l) < 2 ^ 63) as (l & El & Hl).
    { unfold dict_get.
      destruct (x !! "storage_options") as [[]|]; simpl; try done; eauto.
      eexists; split; [done|]. simpl. lia. }
    destruct (chip_tier_value c) as [Ht Hadd].
    eexists. eapply score_unfold.
    + unfold chip_tier. rewrite Ec. reflexivity.
    + exact Hadd.
    + unfold display_term. rewrite Ed. reflexivity.
    + apply py_add_float_r, Ht.
    + apply cellular_term_value.
    + reflexivity.
    + unfold storage_term. rewrite El. simpl.
      rewrite (float_of_Z_small (Z.of_nat (length l))) by lia. reflexivity.
    + reflexivity.
Qed.

End Compare.

(** C8 (what the code does at the failing input): for a stored document
    that holds identifiers at its top level, in a list and in a
    sub-document, the output has no [_id], its [id] is the identifier as
    a string, and the top-level identifier is given as a string; the
    identifiers in the list and in the sub-document are returned as they
    are, not as strings: the loop of [serialize_doc] looks at the values
    of the document itself only. *)
Theorem serialize_doc_keeps_nested_identifiers :
  let out := serialize_doc (ext := sample_env) record_nested in
  out !! "_id" = None ∧
  out !! "id" = Some (VStr "000000000000000000000007") ∧
  out !! "successor" = Some (VStr "000000000000000000000008") ∧
  out !! "related" = Some (VList [VOid (mk_oid 9)]) ∧
  out !! "maker" = Some (VDict {[ "ref" := VOid (mk_oid 10) ]}) ∧
  out !! "related" ≠ Some (VList [VStr "000000000000000000000009"]) ∧
  out !! "maker"
    ≠ Some (VDict {[ "ref" := VStr "00000000000000000000000a" ]}).
Proof.
  assert (Hr : serialize_doc (ext := sample_env) record_nested !! "related"
               = Some (VList [VOid (mk_oid 9)])) by vm_refl.
  assert (Hm : serialize_doc (ext := sample_env) record_nested !! "maker"
               = Some (VDict {[ "ref" := VOid (mk_oid 10) ]})) by vm_refl.
  cbv zeta. rewrite Hr, Hm.
  split_and!; [vm_refl|vm_refl|vm_refl|done|done| |].
  - intros [=].
  - intros E. apply (f_equal (fun v =>
      match v with Some (VDict m) => m !! "ref" | _ => None end)) in E.
    vm_compute in E. discriminate.
Qed.

(** C4 (what the code does at the failing input): with the store
    configured but not answering, a comparison of two well-formed
    identifiers of stored records is answered 400 "Invalid id format",
    while the list endpoint lets the same failure through as a 500. *)
Theorem compare_ipads_store_failure_answers_400 :
  let p := mk_CompareRequest (sample_id 1) (sample_id 2) in
  ObjectId_of_str (Externals := sample_env) (payload_a p) = Some (mk_oid 1) ∧
  ObjectId_of_str (Externals := sample_env) (payload_b p) = Some (mk_oid 2) ∧
  compare_ipads (ext := sample_env) (Some down_store) p
    = Raise (HTTPException 400 "Invalid id format") ∧
  status_of 200 (compare_ipads (ext := sample_env) (Some down_store) p) = 400 ∧
  status_of 200
    (list_ipads (ext := sample_env) (eng := sample_engine)
       (Some down_store) None None None None) = 500.
Proof.
  split_and!; [reflexivity..| |reflexivity].
  by rewrite compare_ipads_unavailable.
Qed.


(** ** The name pattern of the list endpoint *)

Section NamePattern.
Context {eng : RegexEngine}.

Lemma parse_regex_plain (q : string) :
  plain q = true → parse_regex q = Some (lits q).
Proof.
  induction q as [|c q IH]; simpl; [done|].
  intros [Hc Hq]%andb_true_iff. apply negb_true_iff in Hc.
  assert (Ascii.eqb c "\" = false ∧ Ascii.eqb c "." = false) as [-> ->].
  { unfold is_meta in Hc. simpl in Hc.
    repeat (apply orb_false_iff in Hc as [? Hc]). done. }
  rewrite Hc, (IH Hq). reflexivity.
Qed.

Lemma match_here_lits (q s : string) :
  match_here true (lits q) s = true ↔
  ∃ post, upper s = String.append (upper q) post.
Proof.
  revert s. induction q as [|c q IH]; intros s; simpl.
  - split; [intros _; by exists (upper s)|done].
  - destruct s as [|a s]; simpl.
    + split; [done|by intros [post ?]].
    + rewrite andb_true_iff, Ascii.eqb_eq, IH. split.
      * intros [-> [post ->]]. by exists post.
      * intros [post [= -> ->]]. split; [done|by exists post].
Qed.

Lemma regex_search_lits (q s : string) :
  regex_search true (lits q) s = true ↔ occurs_ci q s.
Proof.
  unfold occurs_ci. induction s as [|a s IH].
  - simpl. rewrite orb_false_r, match_here_lits. simpl. split.
    + intros [post Hp]. by exists ""%string, post.
    + intros (pre & post & Hp). destruct pre; [by exists post|done].
  - cbn [regex_search]. rewrite orb_true_iff, match_here_lits, IH. split.
    + intros [[post Hp]|(pre & post & Hp)].
      * by exists ""%string, post.
      * exists (String (upper_char a) pre), post. simpl. by rewrite Hp.
    + intros (pre & post & Hp). destruct pre as [|b pre].
      * left. by exists post.
      * right. simpl in Hp. injection Hp as _ Hp. by exists pre, post.
Qed.

Lemma read_name_constraint (q : string) :
  read_constraint (VDict {[ "$regex" := VStr q; "$options" := VStr "i" ]})
  = CRegex <$> regex_compile q true.
Proof.
  unfold read_constraint. rewrite lookup_insert_eq.
  rewrite lookup_insert_ne, lookup_singleton_eq by done. simpl.
  by destruct (regex_compile q true).
Qed.

(** C5 (as amended): the handler passes every non-empty [q], as it
    stands, to the store as a case-insensitive regular expression on the
    name: the constraint is [{"$regex": q, "$options": "i"}], and a
    record with a text name satisfies it exactly when the store's engine
    accepts [q] as a pattern and the pattern matches the name. For ASCII
    text, when [q] has no character of the pattern syntax, that is
    exactly when [q] occurs in the name as a literal substring, letter
    case ignored. *)
Theorem name_constraint_of_query (q : string)
    (chip : option string) (mn mx : option float) :
  q ≠ ""%string →
  let f := filter_dict (Some q) chip mn mx in
  f !! "name" =
    Some (VDict {[ "$regex" := VStr q; "$options" := VStr "i" ]}) ∧
  (∀ d n, d !! "name" = Some (VStr n) →
     (field_holds f "name" d = true ↔
      ∃ test, regex_compile q true = Some test ∧ test n = true)) ∧
  (plain q = true → ascii_only q = true →
   ∀ d n, d !! "name" = Some (VStr n) → ascii_only n = true →
     (field_holds f "name" d = true ↔ occurs_ci q n)).
Proof.
  intros Hq f.
  assert (Hf : f !! "name" =
    Some (VDict {[ "$regex" := VStr q; "$options" := VStr "i" ]})).
  { unfold f. rewrite filter_dict_lookup. simpl.
    by destruct (String.eqb_spec q ""). }
  assert (Hpat : ∀ d n, d !! "name" = Some (VStr n) →
     (field_holds f "name" d = true ↔
      ∃ test, regex_compile q true = Some test ∧ test n = true)).
  { intros d n Hn. unfold field_holds.
    rewrite Hf, Hn, read_name_constraint.
    destruct (regex_compile q true) as [test|]; simpl.
    - split; [by exists test|by intros (? & [= <-] & ?)].
    - split; [done|by intros (? & ? & ?)]. }
  split_and!; [done|done|].
  intros Hp Ha d n Hn Hna. rewrite (Hpat d n Hn).
  destruct (regex_compile_fragment q true _ (parse_regex_plain _ Hp) Ha)
    as (test & Hc & Ht).
  rewrite <- regex_search_lits, <- (Ht n Hna). split.
  - intros (test' & Hc' & Hm). congruence.
  - intros Hm. by exists test.
Qed.

End NamePattern.

(** ** Seeding *)

Lemma seed_loop_inserts (items : list IPad) (k : Z) (st : store) :
  available st = true →
  ∃ st' new,
    seed_loop items k st = (Ok (k + Z.of_nat (length items)), st') ∧
    available st' = true ∧
    ipad st' = ipad st ++ new ∧
    map (delete "_id") new = map model_dump items ∧
    Forall (fun d : dict => ∃ o, d !! "_id" = Some (VOid o)) new.
Proof.
  revert k st. induction items as [|m items IH]; intros k st Hav.
  - exists st, []. simpl. rewrite Z.add_0_r, app_nil_r. by split_and!.
  - cbn [seed_loop]. unfold create_document. rewrite Hav.
    set (d := <["_id" := VOid (mk_oid (next_oid st))]> (model_dump m)).
    set (st1 := {| available := true; ipad := ipad st ++ [d];
                   next_oid := N.succ (next_oid st) |}).
    destruct (IH (k + 1) st1 eq_refl) as (st' & new & -> & Hav' & Hd & Hm & Hid).
    exists st', (d :: new). split_and!.
    + f_equal. f_equal. simpl length. lia.
    + done.
    + rewrite Hd. simpl. by rewrite <- app_assoc.
    + simpl. rewrite Hm. by f_equal.
    + constructor; [|done]. exists (mk_oid (next_oid st)).
      unfold d. by rewrite lookup_insert_eq.
Qed.

(** C7: with the store configured and answering, a seed request on a
    collection that holds at least one record inserts nothing and reports
    0; on an empty collection it inserts the four demo records, each
    under an identifier of the store, and reports 4 (after which a second
    request inserts nothing and reports 0). *)
Theorem seed_ipads_inserts_once (st : store) :
  available st = true →
  (ipad st ≠ [] →
     seed_ipads (Some st) =
       (Ok {[ "inserted" := VInt 0;
              "message" := VStr "Catalog already has data" ]}, Some st)) ∧
  (ipad st = [] →
     ∃ st', seed_ipads (Some st) = (Ok {[ "inserted" := VInt 4 ]}, Some st') ∧
            length (ipad st') = 4%nat ∧
            map (delete "_id") (ipad st') = map model_dump demo ∧
            Forall (fun d : dict => ∃ o, d !! "_id" = Some (VOid o))
                   (ipad st') ∧
            seed_ipads (Some st') =
              (Ok {[ "inserted" := VInt 0;
                     "message" := VStr "Catalog already has data" ]},
               Some st')).
Proof.
  intros Hav.
  assert (Hfull : ∀ s, available s = true → ipad s ≠ [] →
    seed_ipads (Some s) =
      (Ok {[ "inserted" := VInt 0;
             "message" := VStr "Catalog already has data" ]}, Some s)).
  { intros s Hs Hne. unfold seed_ipads, count_documents. rewrite Hs.
    destruct (ipad s) as [|d l]; [done|]. reflexivity. }
  split; [by apply Hfull|].
  intros Hempty.
  destruct (seed_loop_inserts demo 0 st Hav)
    as (st' & new & Hloop & Hav' & Hd & Hm & Hid).
  rewrite Hempty in Hd. simpl in Hd.
  assert (Hlen : length (ipad st') = 4%nat).
  { rewrite Hd. apply (f_equal length) in Hm.
    by rewrite !length_map in Hm. }
  exists st'. split_and!.
  - unfold seed_ipads, count_documents. rewrite Hav, Hempty.
    cbn [length Z.of_nat Z.gtb Z.compare]. rewrite Hloop. reflexivity.
  - done.
  - by rewrite Hd.
  - by rewrite Hd.
  - apply Hfull; [done|]. intros E. by rewrite E in Hlen.
Qed.

(** * The theorems at concrete requests *)

Example score_record_A : score (ext := sample_env) record_A = Ok (NFloat 7.8).
Proof. vm_refl. Qed.

Example score_record_B : score (ext := sample_env) record_B = Ok (NFloat 5.18).
Proof. vm_refl. Qed.

Lemma serialize_doc_replaces_id_witness :
  serialize_doc (ext := sample_env) record_nan !! "_id" = None ∧
  serialize_doc (ext := sample_env) record_nan !! "id"
    = Some (VStr (py_str (ext := sample_env) (VOid (mk_oid 7)))) ∧
  (∀ o, VOid (mk_oid 7) = VOid o →
     py_str (ext := sample_env) (VOid (mk_oid 7)) = oid_hex o ∧
     py_str (ext := sample_env) (VOid (mk_oid 7)) ≠ ""%string) ∧
  (∀ k, k ≠ "_id" → k ≠ "id" →
     match record_nan !! k with
     | Some (VOid o) =>
         serialize_doc (ext := sample_env) record_nan !! k
           = Some (VStr (oid_hex o))
     | other => serialize_doc (ext := sample_env) record_nan !! k = other
     end).
Proof.
  apply (serialize_doc_replaces_id (ext := sample_env) record_nan
           (VOid (mk_oid 7))).
  vm_refl.
Defined.

Lemma list_ipads_inverted_range_witness :
  list_ipads (ext := sample_env) (eng := sample_engine) (Some seeded_store)
    (Some "pad"%string) None (Some 12%float) (Some 10%float) = Ok [].
Proof.
  refine (proj2 (proj1 (proj2 (proj2 (proj2 (proj2 (proj2 (proj2
    (list_ipads_absent_parameters_and_empty_result (ext := sample_env)
       (eng := sample_engine)
       seeded_store (Some "pad"%string) None (Some 12%float) (Some 10%float)
       _ _ _)))))))
    _) 12%float 10%float _ _ _);
    try vm_refl.
  intros s [= <-] _. by eexists.
Defined.

Lemma compare_ipads_scores_witness :
  ∃ resp,
    compare_ipads (ext := sample_env) (Some seeded_store) sample_request
      = Ok resp ∧
    resp !! "scores" =
      Some (VDict
        {[ "a" := VFloat (spec_score "M4" 11 true
                            [VInt 256; VInt 512; VInt 1024]);
           "b" := VFloat (spec_score "A14" 10.9 true [VInt 64; VInt 256]) ]}).
Proof.
  refine (proj1 (compare_ipads_scores (ext := sample_env) seeded_store
    sample_request (mk_oid 1) (mk_oid 3) (sample_doc 0) (sample_doc 2)
    "M4" 11 true [VInt 256; VInt 512; VInt 1024]
    "A14" 10.9 true [VInt 64; VInt 256] _ _ _ _ _ _));
    try vm_refl.
  all: repeat split; first [vm_refl | simpl; lia].
Defined.

Lemma compare_ipads_recommendation_witness :
  ∃ oa ob a_doc b_doc sa sb,
    oid_of_hex (sample_id 1) = Some oa ∧
    oid_of_hex (sample_id 3) = Some ob ∧
    find_one seeded_store oa = Ok (Some a_doc) ∧
    find_one seeded_store ob = Ok (Some b_doc) ∧
    score (ext := sample_env) (serialize_doc (ext := sample_env) a_doc) = Ok sa ∧
    score (ext := sample_env) (serialize_doc (ext := sample_env) b_doc) = Ok sb ∧
    sample_response !! "recommended"
      = Some (VStr (if py_ge sa sb then "A" else "B")) ∧
    (py_ge sa sb = true ↔ sample_response !! "recommended" = Some (VStr "A")) ∧
    (py_ge sa sb = false ↔ sample_response !! "recommended" = Some (VStr "B")) ∧
    (a_doc = b_doc → num_is_nan sa = false →
       sample_response !! "recommended" = Some (VStr "A")).
Proof.
  apply (compare_ipads_recommendation (ext := sample_env) seeded_store
           sample_request sample_response).
  vm_refl.
Defined.

Lemma chip_lookup_case_insensitive_witness :
  score (ext := sample_env) (<["chip" := VStr "m4"]> record_A)
    = score (ext := sample_env) record_A.
Proof.
  refine (proj1 (chip_lookup_case_insensitive (ext := sample_env)
                   record_A "M4" _) "m4" _); vm_refl.
Defined.

Lemma name_constraint_of_query_witness :
  field_holds (eng := sample_engine)
    (filter_dict (Some "pad"%string) None None None) "name" record_nan = true
  ↔ occurs_ci "pad" "iPad".
Proof.
  refine (proj2 (proj2 (name_constraint_of_query (eng := sample_engine)
                   "pad" None None None _)) _ _ record_nan "iPad" _ _);
    [discriminate|vm_refl..].
Defined.

Lemma seed_ipads_inserts_once_witness :
  seed_ipads (Some seeded_store) =
    (Ok {[ "inserted" := VInt 0;
           "message" := VStr "Catalog already has data" ]},
     Some seeded_store).
Proof.
  refine (proj1 (seed_ipads_inserts_once seeded_store _) _);
    [vm_refl|discriminate].
Defined.

Lemma score_total_on_missing_attributes_witness :
  score (ext := sample_env) ∅ = Ok (NFloat 2).
Proof.
  refine (proj1 (proj2 (proj2 (proj2 (proj2
    (score_total_on_missing_attributes (ext := sample_env) ∅))))) _ _ _ _);
    reflexivity.
Defined.

(** * Where the specification and the code part *)

(** C2, as stated, fails: two fetched records that are identical, with a
    display size that is not a number, are answered with recommendation
    "B". *)
Lemma identical_nan_records_recommend_B :
  oid_of_hex (payload_a nan_request) = Some (mk_oid 7) ∧
  oid_of_hex (payload_b nan_request) = Some (mk_oid 7) ∧
  find_one nan_store (mk_oid 7) = Ok (Some record_nan) ∧
  compare_ipads (ext := sample_env) (Some nan_store) nan_request
    = Ok nan_response ∧
  nan_response !! "recommended" = Some (VStr "B").
Proof. split_and!; vm_refl. Qed.

(** C5, as stated, fails: the query [.] reaches the store as the pattern
    [.]; read as a pattern it matches the name "iPad", in which no full
    stop occurs (and, a pattern being there, it does not match the empty
    name). *)
Lemma dot_query_is_read_as_a_pattern :
  filter_dict (Some "."%string) None None None !! "name"
    = Some (VDict {[ "$regex" := VStr "."; "$options" := VStr "i" ]}) ∧
  field_holds (eng := sample_engine)
    (filter_dict (Some "."%string) None None None) "name"
    {[ "name" := VStr "iPad" ]} = true ∧
  field_holds (eng := sample_engine)
    (filter_dict (Some "."%string) None None None) "name"
    {[ "name" := VStr "" ]} = false ∧
  ¬ occurs_ci "." "iPad".
Proof.
  split_and!; [vm_refl..|]. intros (pre & post & E). simpl in E.
  do 4 (destruct pre as [|? pre]; simpl in E; [discriminate|];
        injection E as _ E).
  destruct pre; discriminate.
Qed.

(** C6, as stated, fails: with the query [(], which the store rejects as
    a pattern, a request whose minimum is above its maximum, and a
    request on an empty collection, are not answered with the empty
    sequence: the store's error leaves the handler (status 500). *)
Lemma rejected_query_fails_the_listing :
  regex_compile (RegexEngine := sample_engine) "(" true = None ∧
  list_ipads (ext := sample_env) (eng := sample_engine) (Some seeded_store)
    (Some "("%string) None (Some 12%float) (Some 10%float)
    = Raise PyMongoError ∧
  list_ipads (ext := sample_env) (eng := sample_engine) (Some empty_store)
    (Some "("%string) None None None = Raise PyMongoError ∧
  status_of 200
    (list_ipads (ext := sample_env) (eng := sample_engine) (Some empty_store)
       (Some "("%string) None None None) = 500.
Proof. split_and!; vm_refl. Qed.

(** * Further properties of the handlers *)

Set Warnings "-clear-no-such-hyp".


(** ** [serialize_doc] *)

Section SerializeMore.
Context {ext : Externals}.

Lemma stringify_not_oid (v : value) : is_oid (stringify v) = false.
Proof. by destruct v. Qed.

Lemma stringify_id (v : value) : is_oid v = false → stringify v = v.
Proof. by destruct v. Qed.

Lemma serialize_doc_empty : serialize_doc ∅ = ∅.
Proof. reflexivity. Qed.

(** The output as a map over the keys of the input. *)
Lemma serialize_doc_lookup_gen (doc : dict) (k : string) :
  serialize_doc doc !! k =
    match doc !! "_id" with
    | Some i =>
        if decide (k = "id") then Some (VStr (py_str i))
        else if decide (k = "_id") then None
        else stringify <$> doc !! k
    | None => stringify <$> doc !! k
    end.
Proof.
  destruct (doc !! "_id") as [i|] eqn:Hid.
  - by apply serialize_doc_lookup.
  - by apply serialize_doc_no_id.
Qed.

(** A field of the output is not [_id] and holds no identifier object. *)
Lemma serialize_doc_lookup_plain (doc : dict) (k : string) (v : value) :
  serialize_doc doc !! k = Some v → k ≠ "_id" ∧ is_oid v = false.
Proof.
  rewrite serialize_doc_lookup_gen.
  destruct (doc !! "_id") as [i|] eqn:Hid.
  - destruct (decide (k = "id")) as [->|Hk]; [by intros [= <-]|].
    destruct (decide (k = "_id")) as [->|Hk']; [done|].
    destruct (doc !! k) as [w|]; intros [= <-].
    split; [done|apply stringify_not_oid].
  - destruct (doc !! k) as [w|] eqn:Hk; intros [= <-].
    split; [by intros ->; rewrite Hid in Hk|apply stringify_not_oid].
Qed.

(** X2: whatever the document, the serialised output has no [_id] key and
    none of its fields holds an identifier object. *)
Theorem serialize_doc_output_plain (doc : dict) :
  serialize_doc doc !! "_id" = None ∧
  map_Forall (fun _ v => is_oid v = false) (serialize_doc doc).
Proof.
  split.
  - destruct (serialize_doc doc !! "_id") as [v|] eqn:E; [|done].
    by apply serialize_doc_lookup_plain in E as [? _].
  - apply map_Forall_lookup. intros k v Hk.
    by apply serialize_doc_lookup_plain in Hk as [_ ?].
Qed.

(** X1: serialising twice is serialising once. *)
Theorem serialize_doc_idempotent (doc : dict) :
  serialize_doc (serialize_doc doc) = serialize_doc doc.
Proof.
  apply map_eq. intros k. rewrite (serialize_doc_lookup_gen (serialize_doc doc)).
  assert (Hno : serialize_doc doc !! "_id" = None).
  { destruct (serialize_doc doc !! "_id") as [v|] eqn:E; [|done].
    by apply serialize_doc_lookup_plain in E as [? _]. }
  rewrite Hno. destruct (serialize_doc doc !! k) as [v|] eqn:E; [|done].
  apply serialize_doc_lookup_plain in E as [_ Hv]. simpl.
  by rewrite stringify_id.
Qed.

(** X3: the keys of the output are those of the document, with [_id]
    replaced by [id]; a document that already has a field [id] beside
    [_id] loses that field's value to the identifier, and a document
    without [_id] gets no [id]. *)
Theorem serialize_doc_keys (doc : dict) :
  dom (serialize_doc doc) =
    (if decide (is_Some (doc !! "_id"))
     then {[ "id"%string ]} ∪ dom doc ∖ {[ "_id"%string ]}
     else dom doc) ∧
  (∀ i v, doc !! "_id" = Some i → doc !! "id" = Some v →
     serialize_doc doc !! "id" = Some (VStr (py_str i)) ∧
     S (size (serialize_doc doc)) = size doc) ∧
  (doc !! "_id" = None → doc !! "id" = None →
     serialize_doc doc !! "id" = None).
Proof.
  assert (Hdom : dom (serialize_doc doc) =
    (if decide (is_Some (doc !! "_id"))
     then {[ "id"%string ]} ∪ dom doc ∖ {[ "_id"%string ]}
     else dom doc)).
  { apply set_eq. intros k. rewrite elem_of_dom, serialize_doc_lookup_gen.
    destruct (doc !! "_id") as [i|] eqn:Hid.
    - destruct (decide (is_Some (Some i))) as [_|Hd];
        [|by destruct Hd; eexists].
      rewrite elem_of_union, elem_of_difference, elem_of_singleton,
        elem_of_singleton, elem_of_dom.
      repeat case_decide; subst; rewrite ?fmap_is_Some; naive_solver.
    - destruct (decide (is_Some (@None value))) as [Hd|_];
        [by destruct Hd|].
      by rewrite fmap_is_Some, elem_of_dom. }
  split_and!; [done| |].
  - intros i v Hid Hv. split.
    + rewrite serialize_doc_lookup_gen, Hid. by case_decide.
    + rewrite <- !size_dom, Hdom.
      destruct (decide (is_Some (doc !! "_id"))) as [_|Hd];
        [|by destruct Hd; eexists].
      assert (Hin : "id"%string ∈ dom doc ∖ {[ "_id"%string ]}).
      { apply elem_of_difference. split; [apply elem_of_dom; eauto|].
        by rewrite elem_of_singleton. }
      replace ({[ "id"%string ]} ∪ dom doc ∖ {[ "_id"%string ]})
        with (dom doc ∖ {[ "_id"%string ]}) by set_solver.
      rewrite size_difference by (apply singleton_subseteq_l, elem_of_dom; eauto).
      rewrite size_singleton.
      assert (size (dom doc) ≠ 0%nat); [|lia].
      apply size_non_empty_iff. intros E.
      assert ("_id"%string ∈ dom doc) by (apply elem_of_dom; eauto).
      set_solver.
  - intros Hid Hv. by rewrite serialize_doc_lookup_gen, Hid, Hv.
Qed.

(** ** [score] *)

(** X4: [score] reads the four scored attributes and nothing else: adding,
    changing or removing any other attribute leaves the score (or the
    exception) unchanged. *)
Theorem score_ignores_other_attributes (x : dict) (k : string) (v : value) :
  k ∉ scored_keys →
  score (<[k := v]> x) = score x ∧ score (delete k x) = score x.
Proof.
  intros Hk.
  assert (Hne : ∀ k', k' ∈ scored_keys → k ≠ k').
  { intros k' Hk' ->. done. }
  assert (Hins : ∀ k' d, k' ∈ scored_keys →
            dict_get (<[k := v]> x) k' d = dict_get x k' d).
  { intros k' d Hk'. apply dict_get_insert_ne, Hne, Hk'. }
  assert (Hdel : ∀ k' d, k' ∈ scored_keys →
            dict_get (delete k x) k' d = dict_get x k' d).
  { intros k' d Hk'. unfold dict_get.
    by rewrite lookup_delete_ne by (apply Hne, Hk'). }
  split; apply score_ext; unfold chip_tier;
    rewrite ?Hins, ?Hdel; try done; unfold scored_keys; set_solver.
Qed.

(** X5: serialisation does not change the score of a document, unless one
    of the four scored attributes holds an identifier object. *)
Theorem score_of_serialized (x : dict) :
  (∀ k v, k ∈ scored_keys → x !! k = Some v → is_oid v = false) →
  score (serialize_doc x) = score x.
Proof.
  intros Hx.
  assert (Hget : ∀ k d, k ∈ scored_keys →
            dict_get (serialize_doc x) k d = dict_get x k d).
  { intros k d Hk. unfold dict_get. f_equal.
    assert (k ≠ "id" ∧ k ≠ "_id") as [? ?].
    { unfold scored_keys in Hk. set_solver. }
    rewrite serialize_doc_lookup_gen.
    assert (stringify <$> x !! k = x !! k) as Hs.
    { destruct (x !! k) as [w|] eqn:E; [|done]. simpl.
      by rewrite (stringify_id _ (Hx _ _ Hk E)). }
    destruct (x !! "_id"); [by repeat case_decide|done]. }
  apply score_ext; unfold chip_tier; rewrite ?Hget; try done;
    unfold scored_keys; set_solver.
Qed.

End SerializeMore.

(** ** IEEE comparison is total away from NaN *)

Lemma SFcompare_antisym (x y : spec_float) :
  SFcompare y x = option_map CompOpp (SFcompare x y).
Proof.
  destruct x as [sx|sx| |sx mx ex], y as [sy|sy| |sy my ey]; simpl;
    try reflexivity;
    try (by destruct sx); try (by destruct sy); try (by destruct sx, sy).
  change (Pos.compare_cont Eq my mx) with (my ?= mx)%positive.
  change (Pos.compare_cont Eq mx my) with (mx ?= my)%positive.
  rewrite (Z.compare_antisym ex ey), (Pos.compare_antisym mx my).
  destruct sx, sy; simpl; try reflexivity; f_equal.
  all: by destruct (ex ?= ey), (mx ?= my)%positive.
Qed.

Lemma float_leb_total (a b : float) :
  is_nan a = false → is_nan b = false →
  PrimFloat.leb a b = false → PrimFloat.leb b a = true.
Proof.
  unfold is_nan. intros Ha%negb_false_iff Hb%negb_false_iff.
  rewrite FloatAxioms.eqb_spec in Ha, Hb. rewrite !FloatAxioms.leb_spec.
  unfold SFeqb in Ha, Hb. unfold SFleb.
  rewrite (SFcompare_antisym (Prim2SF a) (Prim2SF b)).
  destruct (SFcompare (Prim2SF a) (Prim2SF b)) as [[]|] eqn:E; try done.
  destruct (Prim2SF a) as [sa|sa| |sa ma ea]; try discriminate;
    destruct (Prim2SF b) as [sb|sb| |sb mb eb]; discriminate.
Qed.

Lemma float_key_not_nan (f : float) : is_nan f = false → is_Some (float_key f).
Proof.
  unfold is_nan. intros Hf%negb_false_iff.
  rewrite FloatAxioms.eqb_spec in Hf. unfold SFeqb in Hf. unfold float_key.
  destruct (Prim2SF f); try discriminate; eauto.
Qed.

Lemma py_ge_total (a b : num) :
  num_is_nan a = false → num_is_nan b = false →
  py_ge a b = false → py_ge b a = true.
Proof.
  destruct a as [x|f], b as [y|g]; simpl.
  - intros _ _ Hle%Z.leb_gt. apply Z.leb_le. lia.
  - intros _ [k Hk]%float_key_not_nan. rewrite Hk.
    intros Hle%Z.leb_gt. apply Z.leb_le. lia.
  - intros [k Hk]%float_key_not_nan _. rewrite Hk.
    intros Hle%Z.leb_gt. apply Z.leb_le. lia.
  - intros Hf Hg. by apply float_leb_total.
Qed.

(** ** [compare_ipads] *)

Section CompareMore.
Context {ext : Externals}.

Lemma find_one_id (st : store) (o : ObjectId) (d : dict) :
  find_one st o = Ok (Some d) →
  ∃ o', d !! "_id" = Some (VOid o') ∧ oid_hex o' = oid_hex o.
Proof.
  unfold find_one. destruct (available st); [|done].
  intros [= [_ Hid]%find_some]. unfold has_id in Hid.
  destruct (d !! "_id") as [[]|]; try done.
  apply N.eqb_eq in Hid. eexists. split; [done|].
  unfold oid_hex. by rewrite Hid.
Qed.

(** The handler once both records are fetched. *)
Lemma compare_ipads_fetched (st : store) (p : CompareRequest)
    (oa ob : ObjectId) (a_doc b_doc : dict) :
  ObjectId_of_str (payload_a p) = Some oa →
  ObjectId_of_str (payload_b p) = Some ob →
  find_one st oa = Ok (Some a_doc) →
  find_one st ob = Ok (Some b_doc) →
  compare_ipads (Some st) p =
    (sa ← score (serialize_doc a_doc);
     sb ← score (serialize_doc b_doc);
     Ok ({[ "a" := VDict (serialize_doc a_doc);
            "b" := VDict (serialize_doc b_doc);
            "scores" := VDict {[ "a" := value_of_num sa;
                                 "b" := value_of_num sb ]};
            "recommended" := VStr (if py_ge sa sb then "A" else "B") ]}
         : dict)).
Proof.
  intros Ha Hb Fa Fb. unfold compare_ipads, ObjectId_new.
  rewrite Ha, Hb. cbn [mbind res_bind]. rewrite Fa. cbn [mbind res_bind].
  rewrite Fb. cbn [mbind res_bind].
  rewrite (found_not_missing _ _ _ Fa), (found_not_missing _ _ _ Fb).
  reflexivity.
Qed.

(** X6: the outcomes of a comparison: a response, one of the three HTTP
    errors the handler raises itself (500 exactly when the service is not
    configured), or an exception of the scoring arithmetic; so the status
    is 200, 400, 404 or 500. *)
Theorem compare_ipads_outcomes (db : option store) (p : CompareRequest) :
  match compare_ipads db p with
  | Ok _ => is_Some db
  | Raise (HTTPException s d) =>
      (db = None ∧ s = 500 ∧ d = "Database not configured"%string) ∨
      (is_Some db ∧ s = 400 ∧ d = "Invalid id format"%string) ∨
      (is_Some db ∧ s = 404 ∧ d = "One or both models not found"%string)
  | Raise e => is_Some db ∧ builtin_error e
  end ∧
  status_of 200 (compare_ipads db p) ∈ [200; 400; 404; 500].
Proof.
  assert (Hmain :
    match compare_ipads db p with
    | Ok _ => is_Some db
    | Raise (HTTPException s d) =>
        (db = None ∧ s = 500 ∧ d = "Database not configured"%string) ∨
        (is_Some db ∧ s = 400 ∧ d = "Invalid id format"%string) ∨
        (is_Some db ∧ s = 404 ∧ d = "One or both models not found"%string)
    | Raise e => is_Some db ∧ builtin_error e
    end).
  { destruct db as [st|]; [|left; done]. unfold compare_ipads.
    destruct (_ ≫= _) as [[a_doc b_doc]|e]; [|right; left; eauto].
    destruct (missing a_doc || missing b_doc); [right; right; eauto|].
    cbn zeta.
    destruct (score (serialize_doc (default ∅ a_doc))) as [sa|e] eqn:Sa;
      cbn [mbind res_bind].
    2: { apply score_raises in Sa. destruct e; try done; eauto. }
    destruct (score (serialize_doc (default ∅ b_doc))) as [sb|e] eqn:Sb;
      cbn [mbind res_bind]; [eauto|].
    apply score_raises in Sb. destruct e; try done; eauto. }
  split; [done|].
  destruct (compare_ipads db p) as [r|[]]; simpl; set_solver.
Qed.

(** X8: a stored chip that is present but is neither text nor an
    identifier object (a null, a number, a list) makes the comparison
    fail with an unhandled [AttributeError], whatever the other record. *)
Theorem compare_ipads_chip_not_text (st : store) (p : CompareRequest)
    (oa ob : ObjectId) (a_doc b_doc : dict) (v : value) :
  ObjectId_of_str (payload_a p) = Some oa →
  ObjectId_of_str (payload_b p) = Some ob →
  find_one st oa = Ok (Some a_doc) →
  find_one st ob = Ok (Some b_doc) →
  a_doc !! "chip" = Some v →
  match v with VStr _ | VOid _ => False | _ => True end →
  compare_ipads (Some st) p = Raise AttributeError ∧
  status_of 200 (compare_ipads (Some st) p) = 500.
Proof.
  intros Ha Hb Fa Fb Hc Hv.
  assert (Hs : score (serialize_doc a_doc) = Raise AttributeError).
  { unfold score, chip_tier, dict_get.
    rewrite serialize_doc_lookup_gen.
    assert (Hchip : stringify <$> a_doc !! "chip" = Some v).
    { rewrite Hc. simpl. by destruct v. }
    destruct (a_doc !! "_id"); repeat case_decide; try done;
      rewrite Hchip; by destruct v. }
  rewrite (compare_ipads_fetched _ _ _ _ _ _ Ha Hb Fa Fb), Hs. done.
Qed.

(** X9: swapping the two identifiers swaps the two records of the
    response, and only a tie is answered "A" both ways; when both scores
    are numbers, a request answered "B" is answered "A" once swapped. *)
Theorem compare_ipads_swap (st : store) (x y : string)
    (oa ob : ObjectId) (a_doc b_doc : dict) (sa sb : num) :
  ObjectId_of_str x = Some oa →
  ObjectId_of_str y = Some ob →
  find_one st oa = Ok (Some a_doc) →
  find_one st ob = Ok (Some b_doc) →
  score (serialize_doc a_doc) = Ok sa →
  score (serialize_doc b_doc) = Ok sb →
  ∃ r r',
    compare_ipads (Some st) (mk_CompareRequest x y) = Ok r ∧
    compare_ipads (Some st) (mk_CompareRequest y x) = Ok r' ∧
    r' !! "a" = r !! "b" ∧ r' !! "b" = r !! "a" ∧
    (num_is_nan sa = false → num_is_nan sb = false →
     r !! "recommended" = Some (VStr "B") →
     r' !! "recommended" = Some (VStr "A")) ∧
    (r !! "recommended" = Some (VStr "A") →
     r' !! "recommended" = Some (VStr "A") →
     py_ge sa sb = true ∧ py_ge sb sa = true).
Proof.
  intros Ha Hb Fa Fb Sa Sb.
  rewrite (compare_ipads_found st (mk_CompareRequest x y) oa ob a_doc b_doc
             sa sb Ha Hb Fa Fb Sa Sb).
  rewrite (compare_ipads_found st (mk_CompareRequest y x) ob oa b_doc a_doc
             sb sa Hb Ha Fb Fa Sb Sa).
  eexists _, _. split; [reflexivity|]. split; [reflexivity|].
  assert (Hrec : ∀ (a b s : value) (r : string),
    ({[ "a" := a; "b" := b; "scores" := s; "recommended" := VStr r ]} : dict)
      !! "recommended" = Some (VStr r)) by done.
  rewrite !Hrec. split_and!; try done.
  - intros Na Nb. destruct (py_ge sa sb) eqn:E; [done|]. intros _.
    by rewrite (py_ge_total _ _ Na Nb E).
  - by destruct (py_ge sa sb), (py_ge sb sa).
Qed.

(** X10: in a successful comparison the record under "a" carries the
    first requested identifier as its [id], the record under "b" the
    second, and neither has an [_id] key. *)
Theorem compare_ipads_echoes_identifiers (st : store) (p : CompareRequest)
    (resp : dict) :
  compare_ipads (Some st) p = Ok resp →
  ∃ oa ob a b,
    ObjectId_of_str (payload_a p) = Some oa ∧
    ObjectId_of_str (payload_b p) = Some ob ∧
    resp !! "a" = Some (VDict a) ∧ resp !! "b" = Some (VDict b) ∧
    a !! "id" = Some (VStr (oid_hex oa)) ∧ a !! "_id" = None ∧
    b !! "id" = Some (VStr (oid_hex ob)) ∧ b !! "_id" = None.
Proof.
  intros Hr.
  destruct (compare_ipads_ok_inv _ _ _ Hr)
    as (oa & ob & a_doc & b_doc & sa & sb & Ha & Hb & Fa & Fb & Sa & Sb).
  rewrite (compare_ipads_found st p oa ob a_doc b_doc sa sb Ha Hb Fa Fb Sa Sb)
    in Hr.
  injection Hr as <-.
  destruct (find_one_id _ _ _ Fa) as (oa' & Ia & Ea).
  destruct (find_one_id _ _ _ Fb) as (ob' & Ib & Eb).
  exists oa, ob, (serialize_doc a_doc), (serialize_doc b_doc).
  rewrite !(serialize_doc_lookup _ _ _ Ia), !(serialize_doc_lookup _ _ _ Ib).
  simpl. rewrite Ea, Eb. by split_and!.
Qed.

End CompareMore.

(** ** [list_ipads] *)

Section ListMore.
Context {ext : Externals} {eng : RegexEngine}.

Lemma list_ipads_ok_inv (db : option store) q chip mn mx (out : list dict) :
  list_ipads db q chip mn mx = Ok out →
  ∃ st, db = Some st ∧ available st = true ∧
        ge0 mn = true ∧ ge0 mx = true ∧
        well_formed (filter_dict q chip mn mx) ∧
        out = serialize_doc <$>
                filter (doc_matches (filter_dict q chip mn mx)) (ipad st).
Proof.
  unfold list_ipads, get_documents.
  destruct (ge0 mn) eqn:Hmn; [|done]. destruct (ge0 mx) eqn:Hmx; [|done].
  simpl. destruct db as [st|]; [|done].
  destruct (available st) eqn:Ha; [|done].
  case_bool_decide as Hwf; [|done]. simpl. intros [= <-].
  by exists st.
Qed.

Lemma filter_sublist_impl {A} (P Q : A → Prop)
    `{!∀ x, Decision (P x)} `{!∀ x, Decision (Q x)} (l : list A) :
  (∀ x, P x → Q x) → filter P l `sublist_of` filter Q l.
Proof.
  intros HPQ. induction l as [|x l IH]; [done|].
  rewrite !filter_cons. destruct (decide (P x)) as [HP|HP].
  - rewrite decide_True by auto. by constructor.
  - destruct (decide (Q x)); [by constructor|done].
Qed.

(** X11: a successful listing is a sub-sequence, in the store's order, of
    the serialised collection; none of the listed records has an [_id]
    key or a field holding an identifier object. *)
Theorem list_ipads_output (db : option store) q chip mn mx (out : list dict) :
  list_ipads db q chip mn mx = Ok out →
  ∃ st, db = Some st ∧
        out `sublist_of` (serialize_doc <$> ipad st) ∧
        (length out ≤ length (ipad st))%nat ∧
        Forall (fun r : dict =>
                  r !! "_id" = None ∧
                  ∀ k v, r !! k = Some v → is_oid v = false) out.
Proof.
  intros (st & -> & _ & _ & _ & _ & ->)%list_ipads_ok_inv.
  exists st. split_and!; [done| | |].
  - apply fmap_sublist, sublist_filter.
  - rewrite length_fmap. apply sublist_length, sublist_filter.
  - apply Forall_fmap, Forall_forall. intros d _. simpl. split.
    + destruct (serialize_doc d !! "_id") as [v|] eqn:E; [|done].
      by apply serialize_doc_lookup_plain in E as [? _].
    + intros k v Hk. by apply serialize_doc_lookup_plain in Hk as [_ ?].
Qed.

(** X12: the chip parameter is an exact, case-sensitive match: every
    record listed for a non-empty [chip] has exactly that text as its
    chip (unlike the comparison, which reads the chip case-insensitively). *)
Theorem list_ipads_chip_exact (db : option store) q (c : string) mn mx
    (out : list dict) :
  c ≠ ""%string →
  list_ipads db q (Some c) mn mx = Ok out →
  Forall (fun r : dict => r !! "chip" = Some (VStr c)) out.
Proof.
  intros Hc (st & -> & _ & _ & _ & _ & ->)%list_ipads_ok_inv.
  apply Forall_fmap, Forall_forall. intros d [Hd _]%list_elem_of_filter. simpl.
  assert (Hf : filter_dict q (Some c) mn mx !! "chip" = Some (VStr c)).
  { rewrite filter_dict_lookup. simpl. by destruct (String.eqb_spec c ""). }
  pose proof (map_Forall_lookup_1 _ _ _ _ Hd Hf) as Hh. simpl in Hh.
  unfold field_holds in Hh. rewrite Hf in Hh. simpl in Hh.
  destruct (d !! "chip") as [[]|] eqn:Hchip; try done.
  apply String.eqb_eq in Hh as <-.
  rewrite serialize_doc_lookup_gen, Hchip.
  destruct (d !! "_id"); by repeat case_decide.
Qed.

(** X13: the display bounds are inclusive: a stored record whose display
    size is exactly [X] is listed for [min_display = max_display = X]. *)
Theorem list_ipads_bounds_inclusive (st : store) (X : float) (d : dict) :
  available st = true → PrimFloat.leb 0 X = true →
  d ∈ ipad st → d !! "display_size" = Some (VFloat X) →
  ∃ out, list_ipads (Some st) None None (Some X) (Some X) = Ok out ∧
         serialize_doc d ∈ out.
Proof.
  intros Ha HX Hd Hds.
  assert (Hwf : well_formed (filter_dict None None (Some X) (Some X))).
  { by apply filter_dict_well_formed. }
  rewrite (list_ipads_ok st None None (Some X) (Some X) Ha HX HX Hwf).
  eexists. split; [reflexivity|].
  apply (list_elem_of_fmap_2 serialize_doc).
  apply list_elem_of_filter. split; [|done].
  apply map_Forall_lookup. intros k v Hk.
  rewrite filter_dict_lookup in Hk. repeat case_decide; try done. subst k.
  simpl in Hk. injection Hk as <-.
  assert (Hf : filter_dict None None (Some X) (Some X) !! "display_size"
    = Some (VDict (<["$lte" := VFloat X]> (<["$gte" := VFloat X]> ∅))))
    by (by rewrite filter_dict_lookup).
  unfold field_holds. rewrite Hf.
  assert (Hr : read_constraint (VDict
      (<["$lte" := VFloat X]> (<["$gte" := VFloat X]> ∅)))
      = Some (CRange (Some X) (Some X))) by exact (read_range (Some X) (Some X)).
  rewrite Hr, Hds. cbn [from_option holds number_key].
  assert (is_nan X = false) as [k Hk]%float_key_not_nan.
  { unfold is_nan. apply negb_false_iff.
    rewrite FloatAxioms.eqb_spec. rewrite FloatAxioms.leb_spec in HX.
    unfold SFeqb. unfold SFleb in HX.
    destruct (Prim2SF X) as [s|s| |s m e]; try done.
    - by destruct s.
    - simpl. destruct s; simpl;
        by rewrite Z.compare_refl, Pos.compare_cont_refl. }
  rewrite Hk. simpl. by rewrite Z.leb_refl.
Qed.

Lemma holds_range_relax (lo hi lo' hi' : option float) (field : option value) :
  relaxes lo' lo → relaxes hi' hi →
  holds (CRange lo hi) field = true → holds (CRange lo' hi') field = true.
Proof.
  unfold holds. destruct field as [v|]; [|done].
  destruct (number_key v) as [k|]; [|done].
  intros [->| ->] [->| ->]; simpl; try done.
  - by intros [_ ?]%andb_true_iff.
  - intros [? _]%andb_true_iff. by rewrite andb_true_r.
Qed.

(** X14: parameters only narrow the listing: dropping any of the
    parameters of a successful request gives a successful request whose
    listing contains the first one as a sub-sequence. *)
Theorem list_ipads_narrowing (db : option store)
    (q q' chip chip' : option string) (mn mn' mx mx' : option float)
    (out : list dict) :
  relaxes q' q → relaxes chip' chip → relaxes mn' mn → relaxes mx' mx →
  list_ipads db q chip mn mx = Ok out →
  ∃ out', list_ipads db q' chip' mn' mx' = Ok out' ∧ out `sublist_of` out'.
Proof.
  intros Rq Rc Rmn Rmx (st & -> & Ha & Hmn & Hmx & Hwf & ->)%list_ipads_ok_inv.
  assert (Hmn' : ge0 mn' = true) by (by destruct Rmn as [->| ->]).
  assert (Hmx' : ge0 mx' = true) by (by destruct Rmx as [->| ->]).
  set (f := filter_dict q chip mn mx) in *.
  set (f' := filter_dict q' chip' mn' mx').
  assert (Hrange : is_not_None mn' || is_not_None mx' = true →
                   is_not_None mn || is_not_None mx = true).
  { destruct Rmn as [->| ->], Rmx as [->| ->]; by destruct mn, mx. }
  assert (Hkey : ∀ k v', f' !! k = Some v' →
    is_Some (read_constraint v') ∧
    ∀ d, field_holds f k d = true → is_Some (f !! k) →
         field_holds f' k d = true).
  { intros k v'. unfold field_holds, f', f. rewrite !filter_dict_lookup.
    repeat case_decide.
    - destruct (is_not_None mn' || is_not_None mx') eqn:E'; [|done].
      intros [= <-]. rewrite read_range. split; [eauto|].
      rewrite (Hrange eq_refl).
      rewrite read_range. simpl. intros d Hd _.
      by apply (holds_range_relax mn mx).
    - destruct Rc as [->| ->]; [done|].
      destruct (present chip); [|done]. by intros [= <-].
    - destruct Rq as [->| ->]; [done|].
      destruct (present q) eqn:Hq; [|done]. intros [= <-]. split; [|done].
      assert (Hn : f !! "name" = Some (VDict
        {[ "$regex" := VStr (default "" q); "$options" := VStr "i" ]})).
      { unfold f. rewrite filter_dict_lookup. by rewrite Hq. }
      exact (map_Forall_lookup_1 _ _ _ _ Hwf Hn).
    - done. }
  assert (Hsome : ∀ k v', f' !! k = Some v' → is_Some (f !! k)).
  { intros k v'. unfold f', f. rewrite !filter_dict_lookup.
    repeat case_decide; try done.
    - destruct (is_not_None mn' || is_not_None mx') eqn:E'; [|done].
      rewrite (Hrange eq_refl). eauto.
    - destruct Rc as [->| ->]; [done|]. destruct (present chip); [eauto|done].
    - destruct Rq as [->| ->]; [done|]. destruct (present q); [eauto|done]. }
  assert (Hwf' : well_formed f').
  { apply map_Forall_lookup. intros k v' Hk. by apply (Hkey k v'). }
  rewrite (list_ipads_ok st q' chip' mn' mx' Ha Hmn' Hmx' Hwf').
  eexists. split; [reflexivity|].
  apply fmap_sublist, filter_sublist_impl. intros d Hd.
  apply map_Forall_lookup. intros k v' Hk.
  destruct (Hkey k v' Hk) as [_ Hh]. destruct (Hsome k v' Hk) as [v Hv].
  apply Hh; [|eauto]. exact (map_Forall_lookup_1 _ _ _ _ Hd Hv).
Qed.

End ListMore.

(** ** Failures of the store, seeding and creation *)

Section StoreMore.
Context {ext : Externals} {eng : RegexEngine}.

(** X15: a store that does not answer makes the list, create and seed
    endpoints fail with the driver's error, which the framework answers
    with 500, and leaves the collection as it was (the comparison
    endpoint answers 400 instead). *)
Theorem store_failure_is_500 (st : store) q chip mn mx (model : IPad) :
  available st = false → ge0 mn = true → ge0 mx = true →
  list_ipads (Some st) q chip mn mx = Raise PyMongoError ∧
  create_ipad (Some st) model = (Raise PyMongoError, Some st) ∧
  seed_ipads (Some st) = (Raise PyMongoError, Some st) ∧
  status_of 200 (list_ipads (Some st) q chip mn mx) = 500 ∧
  status_of 201 (fst (create_ipad (Some st) model)) = 500 ∧
  status_of 200 (fst (seed_ipads (Some st))) = 500.
Proof.
  intros Ha Hmn Hmx.
  unfold list_ipads, get_documents, create_ipad, create_document,
    seed_ipads, count_documents.
  by rewrite Hmn, Hmx, Ha.
Qed.

(** An insertion, whether it succeeds or fails, keeps the records that
    are there and adds at most one. *)
Lemma create_document_grows (st st' : store) (data : dict) (r : res string) :
  create_document st data = (r, st') →
  ipad st `prefix_of` ipad st' ∧
  (length (ipad st') ≤ length (ipad st) + 1)%nat.
Proof.
  unfold create_document. destruct (available st); intros [= <- <-].
  - simpl. split; [by apply prefix_app_r|]. rewrite length_app. simpl. lia.
  - split; [done|lia].
Qed.

Lemma seed_loop_grows (items : list IPad) (k : Z) (st st' : store)
    (r : res Z) :
  seed_loop items k st = (r, st') →
  ipad st `prefix_of` ipad st' ∧
  (length (ipad st') ≤ length (ipad st) + length items)%nat.
Proof.
  revert k st. induction items as [|m items IH]; intros k st; cbn [seed_loop].
  - intros [= <- <-]. split; [done|lia].
  - destruct (create_document st (model_dump m)) as [[s|e] st1] eqn:Hc.
    + apply create_document_grows in Hc as [Hp Hl].
      intros [Hp' Hl']%IH. split; [by etrans|]. simpl. lia.
    + apply create_document_grows in Hc as [Hp Hl].
      intros [= <- <-]. split; [done|]. simpl. lia.
Qed.

(** X16: seeding never removes or changes a stored record: the collection
    before the call is a prefix of the collection after it; the call adds
    at most four records; and a collection that already holds a record is
    left exactly as it was. *)
Theorem seed_ipads_keeps_records (st : store) (r : res dict)
    (db' : option store) :
  seed_ipads (Some st) = (r, db') →
  ∃ st', db' = Some st' ∧
         ipad st `prefix_of` ipad st' ∧
         (length (ipad st') ≤ length (ipad st) + 4)%nat ∧
         (ipad st ≠ [] → st' = st).
Proof.
  unfold seed_ipads.
  destruct (count_documents st) as [count|e] eqn:Hcount.
  2: { intros [= <- <-]. exists st. split_and!; [done..|lia|done]. }
  assert (Hc : count = Z.of_nat (length (ipad st))).
  { unfold count_documents in Hcount.
    destruct (available st); by inversion Hcount. }
  destruct (count >? 0) eqn:Hpos.
  { intros [= <- <-]. exists st. split_and!; [done..|lia|done]. }
  destruct (seed_loop demo 0 st) as [r1 st1] eqn:Hloop.
  intros [= <- <-]. exists st1.
  apply seed_loop_grows in Hloop as [Hp Hl].
  split_and!; [done|done|exact Hl|].
  intros Hne. destruct (ipad st); [done|]. simpl in Hc. lia.
Qed.

(** X17: creation appends exactly one record, made of the fields of the
    model under a new identifier, and returns that identifier; nothing
    looks for duplicates: creating the same model again appends a second
    record under another identifier. In a store whose counter is above
    the identifiers in use, the new identifier is that of no stored
    record, and the counter is above the identifiers in use afterwards
    too. *)
Theorem create_ipad_appends (st : store) (model : IPad) :
  available st = true →
  ∃ o o2 st' st'',
    create_ipad (Some st) model
      = (Ok ({[ "id" := VStr (oid_hex o) ]} : dict), Some st') ∧
    ipad st' = ipad st ++ [<["_id" := VOid o]> (model_dump model)] ∧
    delete "_id" (<["_id" := VOid o]> (model_dump model)) = model_dump model ∧
    create_ipad (Some st') model
      = (Ok ({[ "id" := VStr (oid_hex o2) ]} : dict), Some st'') ∧
    ipad st'' = ipad st ++ [<["_id" := VOid o]> (model_dump model);
                            <["_id" := VOid o2]> (model_dump model)] ∧
    oid_val o2 ≠ oid_val o ∧
    (counter_above st →
     (∀ d o', d ∈ ipad st → d !! "_id" = Some (VOid o') →
              oid_val o' ≠ oid_val o) ∧
     counter_above st').
Proof.
  intros Ha. unfold create_ipad, create_document. rewrite Ha. simpl.
  eexists (mk_oid (next_oid st)), (mk_oid (N.succ (next_oid st))), _, _.
  split_and!; try reflexivity.
  - simpl. by rewrite <- app_assoc.
  - simpl. lia.
  - intros Hinv. split.
    + intros d o' Hd Hid. specialize (Hinv d o' Hd Hid). simpl. lia.
    + intros d o'. simpl. rewrite elem_of_app, list_elem_of_singleton.
      intros [Hd| ->] Hid.
      * specialize (Hinv d o' Hd Hid). lia.
      * rewrite lookup_insert_eq in Hid. injection Hid as <-. simpl. lia.
Qed.

End StoreMore.

(** ** [test_database] *)

Lemma str_len_take (n : nat) (s : string) :
  str_len (str_take n s) <= Z.of_nat n.
Proof.
  revert n. induction s as [|c s IH]; intros n; simpl; [lia|].
  unfold is_continuation. destruct (N.eqb_spec (N.land (N_of_ascii c) 192) 128) as [E|E].
  - simpl. apply N.eqb_eq in E as ->. apply IH.
  - destruct n as [|n]; simpl; [lia|].
    apply N.eqb_neq in E as ->. specialize (IH n). lia.
Qed.

Lemma str_take_prefix (n : nat) (s : string) :
  ∃ rest, s = String.append (str_take n s) rest.
Proof.
  revert n. induction s as [|c s IH]; intros n; simpl; [by exists ""%string|].
  destruct (is_continuation c).
  - destruct (IH n) as [rest Hr]. exists rest.
    change (String c s = String c (String.append (str_take n s) rest)).
    by f_equal.
  - destruct n as [|n]; [by eexists|].
    destruct (IH n) as [rest Hr]. exists rest.
    change (String c s = String c (String.append (str_take n s) rest)).
    by f_equal.
Qed.

(** X19: the diagnostics always answer with the same six keys; the
    [database_url] and [database_name] entries tell only whether the two
    environment variables are set, whatever the state of the store (the
    values written while probing the store are overwritten); the
    connection is reported "Connected" exactly when a store handle
    exists, and the initial "Not Available" never reaches the caller. *)
Theorem test_database_report (db : option db_handle)
    (env : gmap string string) :
  let r := test_database db env in
  dom r = {[ "backend"; "database"; "database_url"; "database_name";
             "connection_status"; "collections" ]}%string ∧
  r !! "backend" = Some (VStr "✅ Running") ∧
  r !! "database_url" =
    Some (VStr (if getenv_set env "DATABASE_URL" then "✅ Set"
                else "❌ Not Set")) ∧
  r !! "database_name" =
    Some (VStr (if getenv_set env "DATABASE_NAME" then "✅ Set"
                else "❌ Not Set")) ∧
  r !! "connection_status" =
    Some (VStr match db with
               | Some _ => "Connected"
               | None => "Not Connected"
               end) ∧
  r !! "database" ≠ Some (VStr "❌ Not Available").
Proof.
  unfold test_database.
  destruct db as [[nm [e|names]]|]; cbn zeta iota beta; split_and!;
    try (by simplify_map_eq); try (rewrite !dom_insert_L; set_solver).
Qed.

(** X20: the diagnostics list at most ten collections, the first ones the
    store names, and none when there is no store or the listing fails; a
    failed listing is reported in the [database] entry with at most the
    first fifty characters of the exception text. *)
Theorem test_database_collections (db : option db_handle)
    (env : gmap string string) :
  let r := test_database db env in
  (∃ shown : list string,
     r !! "collections" = Some (VList (VStr <$> shown)) ∧
     (length shown ≤ 10)%nat ∧
     match db with
     | Some h =>
         match collection_names h with
         | inr names => shown = take 10 names
         | inl _ => shown = []
         end
     | None => shown = []
     end) ∧
  (∀ h e, db = Some h → collection_names h = inl e →
     ∃ t rest,
       r !! "database"
         = Some (VStr (String.append "⚠️  Connected but Error: " t)) ∧
       str_len t <= 50 ∧ e = String.append t rest).
Proof.
  unfold test_database. split.
  - destruct db as [[nm [e|names]]|]; cbn zeta iota beta.
    + exists []. split_and!; [by simplify_map_eq|simpl; lia|done].
    + exists (take 10 names). split_and!; [by simplify_map_eq| |done].
      rewrite length_take. lia.
    + exists []. split_and!; [by simplify_map_eq|simpl; lia|done].
  - intros h e -> He. destruct h as [nm cn]. simpl in He. subst cn.
    cbn zeta iota beta. destruct (str_take_prefix 50 e) as [rest Hr].
    exists (str_take 50 e), rest. split_and!; [by simplify_map_eq| |done].
    apply (str_len_take 50).
Qed.

(** ** The further properties at concrete requests *)

Lemma score_ignores_other_attributes_witness :
  score (ext := sample_env) (<["name" := VStr "iPad"]> record_A)
    = score (ext := sample_env) record_A ∧
  score (ext := sample_env) (delete "name" record_A)
    = score (ext := sample_env) record_A.
Proof.
  apply (score_ignores_other_attributes (ext := sample_env) record_A "name"
           (VStr "iPad")).
  unfold scored_keys. set_solver.
Defined.

Lemma score_of_serialized_witness :
  score (ext := sample_env) (serialize_doc (ext := sample_env) record_nan)
    = score (ext := sample_env) record_nan.
Proof.
  apply (score_of_serialized (ext := sample_env) record_nan).
  intros k v Hk. unfold scored_keys in Hk.
  apply elem_of_cons in Hk as [->|Hk]; [by intros [= <-]|].
  apply elem_of_cons in Hk as [->|Hk]; [by intros [= <-]|].
  apply elem_of_cons in Hk as [->|Hk]; [by intros [= <-]|].
  apply elem_of_cons in Hk as [->|Hk]; [by intros [= <-]|].
  by apply elem_of_nil in Hk.
Defined.

Lemma compare_ipads_errors_witness :
  (oid_of_hex (sample_id 1) = None ∨ oid_of_hex (sample_id 3) = None ↔
   compare_ipads (ext := sample_env) (Some seeded_store) sample_request
     = Raise (HTTPException 400 "Invalid id format")) ∧
  ((∃ oa ob, oid_of_hex (sample_id 1) = Some oa ∧
             oid_of_hex (sample_id 3) = Some ob ∧
             (find_one seeded_store oa = Ok None ∨
              find_one seeded_store ob = Ok None)) ↔
   compare_ipads (ext := sample_env) (Some seeded_store) sample_request
     = Raise (HTTPException 404 "One or both models not found")).
Proof.
  apply (compare_ipads_errors (ext := sample_env) seeded_store sample_request).
  vm_refl.
Defined.

Lemma compare_ipads_chip_not_text_witness :
  compare_ipads (ext := sample_env) (Some null_chip_store)
    (mk_CompareRequest (sample_id 9) (sample_id 9)) = Raise AttributeError ∧
  status_of 200
    (compare_ipads (ext := sample_env) (Some null_chip_store)
       (mk_CompareRequest (sample_id 9) (sample_id 9))) = 500.
Proof.
  apply (compare_ipads_chip_not_text (ext := sample_env) null_chip_store
           (mk_CompareRequest (sample_id 9) (sample_id 9))
           (mk_oid 9) (mk_oid 9) record_null_chip record_null_chip VNone);
    first [vm_refl | exact I].
Defined.

Lemma compare_ipads_swap_witness :
  ∃ r r',
    compare_ipads (ext := sample_env) (Some seeded_store)
      (mk_CompareRequest (sample_id 3) (sample_id 1)) = Ok r ∧
    compare_ipads (ext := sample_env) (Some seeded_store)
      (mk_CompareRequest (sample_id 1) (sample_id 3)) = Ok r' ∧
    r' !! "a" = r !! "b" ∧ r' !! "b" = r !! "a" ∧
    (num_is_nan (NFloat 5.18) = false → num_is_nan (NFloat 7.8) = false →
     r !! "recommended" = Some (VStr "B") →
     r' !! "recommended" = Some (VStr "A")) ∧
    (r !! "recommended" = Some (VStr "A") →
     r' !! "recommended" = Some (VStr "A") →
     py_ge (NFloat 5.18) (NFloat 7.8) = true ∧
     py_ge (NFloat 7.8) (NFloat 5.18) = true).
Proof.
  apply (compare_ipads_swap (ext := sample_env) seeded_store
           (sample_id 3) (sample_id 1) (mk_oid 3) (mk_oid 1)
           (sample_doc 2) (sample_doc 0) (NFloat 5.18) (NFloat 7.8));
    vm_refl.
Defined.

Lemma compare_ipads_echoes_identifiers_witness :
  ∃ oa ob a b,
    oid_of_hex (sample_id 1) = Some oa ∧
    oid_of_hex (sample_id 3) = Some ob ∧
    sample_response !! "a" = Some (VDict a) ∧
    sample_response !! "b" = Some (VDict b) ∧
    a !! "id" = Some (VStr (oid_hex oa)) ∧ a !! "_id" = None ∧
    b !! "id" = Some (VStr (oid_hex ob)) ∧ b !! "_id" = None.
Proof.
  apply (compare_ipads_echoes_identifiers (ext := sample_env) seeded_store
           sample_request sample_response).
  vm_refl.
Defined.

Lemma list_ipads_output_witness :
  ∃ st, Some seeded_store = Some st ∧
        sample_listing `sublist_of`
          (serialize_doc (ext := sample_env) <$> ipad st) ∧
        (length sample_listing ≤ length (ipad st))%nat ∧
        Forall (fun r : dict =>
                  r !! "_id" = None ∧
                  ∀ k v, r !! k = Some v → is_oid v = false) sample_listing.
Proof.
  apply (list_ipads_output (ext := sample_env) (eng := sample_engine)
           (Some seeded_store) None (Some "M4"%string) (Some 10%float) None
           sample_listing).
  vm_refl.
Defined.

Lemma list_ipads_chip_exact_witness :
  Forall (fun r : dict => r !! "chip" = Some (VStr "M4")) sample_listing.
Proof.
  apply (list_ipads_chip_exact (ext := sample_env) (eng := sample_engine)
           (Some seeded_store) None "M4" (Some 10%float) None sample_listing);
    [discriminate|vm_refl].
Defined.

Lemma list_ipads_bounds_inclusive_witness :
  ∃ out,
    list_ipads (ext := sample_env) (eng := sample_engine) (Some seeded_store)
      None None (Some 11%float) (Some 11%float) = Ok out ∧
    serialize_doc (ext := sample_env) (sample_doc 0) ∈ out.
Proof.
  apply (list_ipads_bounds_inclusive (ext := sample_env) (eng := sample_engine)
           seeded_store 11%float (sample_doc 0)); try vm_refl.
  apply (list_elem_of_lookup_2 _ 0%nat). vm_refl.
Defined.

Lemma list_ipads_narrowing_witness :
  ∃ out',
    list_ipads (ext := sample_env) (eng := sample_engine) (Some seeded_store)
      None None (Some 10%float) None = Ok out' ∧
    sample_listing `sublist_of` out'.
Proof.
  apply (list_ipads_narrowing (ext := sample_env) (eng := sample_engine)
           (Some seeded_store) None None (Some "M4"%string) None
           (Some 10%float) (Some 10%float) None None sample_listing);
    [by left|by left|by right|by left|vm_refl].
Defined.

Lemma store_failure_is_500_witness :
  list_ipads (ext := sample_env) (eng := sample_engine) (Some down_store)
    None None None None = Raise PyMongoError ∧
  seed_ipads (Some down_store) = (Raise PyMongoError, Some down_store).
Proof.
  pose proof (store_failure_is_500 (ext := sample_env) (eng := sample_engine)
                down_store None None None None sample_model
                eq_refl eq_refl eq_refl) as (H1 & _ & H3 & _).
  exact (conj H1 H3).
Defined.

Lemma seed_ipads_keeps_records_witness :
  ∃ st', snd (seed_ipads (Some empty_store)) = Some st' ∧
         ipad empty_store `prefix_of` ipad st' ∧
         (length (ipad st') ≤ length (ipad empty_store) + 4)%nat ∧
         (ipad empty_store ≠ [] → st' = empty_store).
Proof.
  apply (seed_ipads_keeps_records empty_store
           (fst (seed_ipads (Some empty_store)))
           (snd (seed_ipads (Some empty_store)))).
  by destruct (seed_ipads (Some empty_store)).
Defined.

Lemma create_ipad_appends_witness :
  ∃ o o2 st' st'',
    create_ipad (Some empty_store) sample_model
      = (Ok ({[ "id" := VStr (oid_hex o) ]} : dict), Some st') ∧
    ipad st' = ipad empty_store ++
      [<["_id" := VOid o]> (model_dump sample_model)] ∧
    delete "_id" (<["_id" := VOid o]> (model_dump sample_model))
      = model_dump sample_model ∧
    create_ipad (Some st') sample_model
      = (Ok ({[ "id" := VStr (oid_hex o2) ]} : dict), Some st'') ∧
    ipad st'' = ipad empty_store ++
      [<["_id" := VOid o]> (model_dump sample_model);
       <["_id" := VOid o2]> (model_dump sample_model)] ∧
    oid_val o2 ≠ oid_val o ∧
    (counter_above empty_store →
     (∀ d o', d ∈ ipad empty_store → d !! "_id" = Some (VOid o') →
              oid_val o' ≠ oid_val o) ∧
     counter_above st').
Proof.
  apply (create_ipad_appends empty_store sample_model).
  reflexivity.
Defined.

Lemma create_then_list_witness :
  ∃ st' o out,
    create_ipad (Some empty_store) sample_model
      = (Ok ({[ "id" := VStr (oid_hex o) ]} : dict), Some st') ∧
    list_ipads (ext := sample_env) (eng := sample_engine) (Some st')
      None None None None
      = Ok (map (serialize_doc (ext := sample_env)) (ipad empty_store) ++ [out]) ∧
    out !! "id" = Some (VStr (oid_hex o)) ∧
    oid_hex o ≠ ""%string ∧
    out !! "_id" = None ∧
    out !! "name" = Some (VStr (name sample_model)).
Proof.
  apply (create_then_list (ext := sample_env) (eng := sample_engine)
           empty_store sample_model).
  reflexivity.
Defined.

(** ** NaN in the scores, and the type of a score *)

Lemma SFcompare_refl (x : spec_float) :
  x ≠ S754_nan → SFcompare x x = Some Eq.
Proof.
  destruct x as [s|s| |s m e]; simpl; try done; intros _.
  - by destruct s.
  - destruct s; by rewrite Z.compare_refl, Pos.compare_cont_refl.
Qed.

Lemma is_nan_Prim2SF (f : float) : is_nan f = true ↔ Prim2SF f = S754_nan.
Proof.
  unfold is_nan. rewrite negb_true_iff, FloatAxioms.eqb_spec. unfold SFeqb.
  split.
  - intros Hc. destruct (Prim2SF f) as [s|s| |s m e] eqn:E; [| |done|].
    all: by rewrite SFcompare_refl in Hc.
  - by intros ->.
Qed.

Lemma is_nan_mul_l (a b : float) : is_nan a = true → is_nan (a * b) = true.
Proof.
  rewrite !is_nan_Prim2SF, FloatAxioms.mul_spec. by intros ->.
Qed.

Lemma is_nan_add_l (a b : float) : is_nan a = true → is_nan (a + b) = true.
Proof.
  rewrite !is_nan_Prim2SF, FloatAxioms.add_spec. by intros ->.
Qed.

Lemma is_nan_add_r (a b : float) : is_nan b = true → is_nan (a + b) = true.
Proof.
  rewrite !is_nan_Prim2SF, FloatAxioms.add_spec. intros ->.
  by destruct (Prim2SF a).
Qed.

Lemma leb_nan (a b : float) :
  is_nan a = true ∨ is_nan b = true → PrimFloat.leb a b = false.
Proof.
  rewrite !is_nan_Prim2SF, FloatAxioms.leb_spec. unfold SFleb.
  intros [-> | ->]; [done|]. by destruct (Prim2SF a).
Qed.

Lemma bind_ok {A B} (m : res A) (f : A → res B) (b : B) :
  m ≫= f = Ok b → ∃ a, m = Ok a ∧ f a = Ok b.
Proof. destruct m as [a|e]; cbn; [eauto|done]. Qed.

Section ScoreMore.
Context {ext : Externals}.

(** X22: whenever [score] returns, it returns a float and never an int,
    as its annotation says, although the running total starts as the
    int 0 and the chip tiers are partly ints. *)
Theorem score_returns_float (x : dict) (s : num) :
  score x = Ok s → ∃ f, s = NFloat f.
Proof.
  unfold score. intros Hs.
  apply bind_ok in Hs as (t0 & _ & Hs). apply bind_ok in Hs as (b1 & _ & Hs).
  apply bind_ok in Hs as (t1 & _ & Hs). apply bind_ok in Hs as (b2 & _ & Hs).
  apply bind_ok in Hs as (t2 & _ & Hs). apply bind_ok in Hs as (b3 & _ & Hs).
  apply bind_ok in Hs as (t3 & Ht3 & Hs). apply bind_ok in Hs as (b4 & Hb4 & Hs).
  injection Hs as <-.
  unfold storage_term in Ht3. apply bind_ok in Ht3 as (n & _ & Ht3).
  simpl in Ht3. apply bind_ok in Ht3 as (g & _ & Ht3). injection Ht3 as <-.
  destruct b3; simpl in Hb4.
  - apply bind_ok in Hb4 as (y & _ & Hb4). injection Hb4 as <-. eauto.
  - injection Hb4 as <-. eauto.
Qed.

(** X23: a fetched record whose display size is NaN is never preferred
    and never lets the other record be preferred: whenever one of the two
    records (with typed attributes) has a NaN display size, the
    recommendation is "B", and the score reported for a record with a
    NaN display size is NaN. *)
Theorem compare_ipads_nan_display (st : store) (p : CompareRequest)
    (oa ob : ObjectId) (a_doc b_doc : dict)
    (ca : string) (da : float) (la : bool) (sa : list value)
    (cb : string) (db : float) (lb : bool) (sb : list value) :
  ObjectId_of_str (payload_a p) = Some oa →
  ObjectId_of_str (payload_b p) = Some ob →
  find_one st oa = Ok (Some a_doc) →
  find_one st ob = Ok (Some b_doc) →
  scored_fields a_doc ca da la sa →
  scored_fields b_doc cb db lb sb →
  is_nan da = true ∨ is_nan db = true →
  ∃ resp sA sB,
    compare_ipads (Some st) p = Ok resp ∧
    resp !! "recommended" = Some (VStr "B") ∧
    resp !! "scores" = Some (VDict {[ "a" := VFloat sA; "b" := VFloat sB ]}) ∧
    (is_nan da = true → is_nan sA = true) ∧
    (is_nan db = true → is_nan sB = true).
Proof.
  intros Ha Hb Fa Fb Ta Tb Hnan.
  pose proof (score_formula _ _ _ _ _
                (scored_fields_serialize _ _ _ _ _ Ta)) as Sa.
  pose proof (score_formula _ _ _ _ _
                (scored_fields_serialize _ _ _ _ _ Tb)) as Sb.
  rewrite (compare_ipads_found _ _ _ _ _ _ _ _ Ha Hb Fa Fb Sa Sb).
  eexists _, (spec_score ca da la sa), (spec_score cb db lb sb).
  split; [reflexivity|].
  assert (Hs : ∀ c d l s, is_nan d = true → is_nan (spec_score c d l s) = true).
  { intros c d l s Hd. unfold spec_score.
    by apply is_nan_add_l, is_nan_add_l, is_nan_add_r, is_nan_mul_l. }
  assert (Hge : py_ge (NFloat (spec_score ca da la sa))
                      (NFloat (spec_score cb db lb sb)) = false).
  { simpl. apply leb_nan. destruct Hnan as [H|H]; [right|left]; by apply Hs. }
  rewrite Hge. split_and!; [done|done|apply Hs|apply Hs].
Qed.

End ScoreMore.

(** ** Searching by name *)

Section SearchMore.
Context {ext : Externals} {eng : RegexEngine}.

(** X21: on a catalog whose names are ASCII text, for an ASCII query
    without any character of the pattern syntax, and no other parameter,
    the listing is made of exactly the stored records whose name is a
    string in which the query occurs, letter case ignored. *)
Theorem list_ipads_plain_query (st : store) (q : string) :
  available st = true → q ≠ ""%string → plain q = true →
  ascii_only q = true → forallb ascii_name (ipad st) = true →
  ∃ out,
    list_ipads (Some st) (Some q) None None None = Ok out ∧
    ∀ r, r ∈ out ↔
         ∃ d n, d ∈ ipad st ∧ d !! "name" = Some (VStr n) ∧
                occurs_ci q n ∧ r = serialize_doc d.
Proof.
  intros Ha Hq Hp Hqa Hnames.
  destruct (regex_compile_fragment q true _ (parse_regex_plain _ Hp) Hqa)
    as (test & Hc & Ht).
  assert (Hwf : well_formed (filter_dict (Some q) None None None)).
  { apply filter_dict_well_formed. intros s [= <-] _. by rewrite Hc. }
  rewrite (list_ipads_ok st (Some q) None None None Ha eq_refl eq_refl Hwf).
  eexists. split; [reflexivity|]. intros r.
  assert (Hf : filter_dict (Some q) None None None !! "name" =
    Some (VDict {[ "$regex" := VStr q; "$options" := VStr "i" ]})).
  { rewrite filter_dict_lookup. simpl. by destruct (String.eqb_spec q ""). }
  assert (Hr : read_constraint
            (VDict {[ "$regex" := VStr q; "$options" := VStr "i" ]})
          = Some (CRegex test)).
  { by rewrite read_name_constraint, Hc. }
  assert (Hascii : ∀ d n, d ∈ ipad st → d !! "name" = Some (VStr n) →
                          test n = regex_search true (lits q) n).
  { intros d n Hd Hn. apply Ht.
    rewrite forallb_forall in Hnames.
    apply list_elem_of_In in Hd. specialize (Hnames d Hd).
    unfold ascii_name in Hnames. by rewrite Hn in Hnames. }
  assert (Hm : ∀ d, d ∈ ipad st →
                    (doc_matches (filter_dict (Some q) None None None) d ↔
                     ∃ n, d !! "name" = Some (VStr n) ∧ occurs_ci q n)).
  { intros d Hin. split.
    - intros Hd. pose proof (map_Forall_lookup_1 _ _ _ _ Hd Hf) as Hh.
      simpl in Hh. unfold field_holds in Hh. rewrite Hf, Hr in Hh.
      simpl in Hh. destruct (d !! "name") as [[| | | |n| | |]|] eqn:Hn;
        try done.
      exists n. split; [done|]. apply regex_search_lits.
      by rewrite <- (Hascii d n Hin Hn).
    - intros (n & Hn & Ho). apply map_Forall_lookup. intros k v Hk.
      rewrite filter_dict_lookup in Hk. repeat case_decide; try done.
      subst k. unfold field_holds. rewrite Hf, Hr, Hn. simpl.
      rewrite (Hascii d n Hin Hn). by apply regex_search_lits. }
  change (map serialize_doc ?l) with (serialize_doc <$> l).
  rewrite list_elem_of_fmap. split.
  - intros (d & -> & [Hd Hin]%list_elem_of_filter).
    apply (Hm d Hin) in Hd as (n & Hn & Ho). by exists d, n.
  - intros (d & n & Hd & Hn & Ho & ->). exists d. split; [done|].
    apply list_elem_of_filter. split; [|done]. apply (Hm d Hd). eauto.
Qed.

End SearchMore.

Lemma score_returns_float_witness :
  ∃ f, NFloat 7.8 = NFloat f.
Proof.
  apply (score_returns_float (ext := sample_env) record_A (NFloat 7.8)).
  vm_refl.
Defined.

Lemma compare_ipads_nan_display_witness :
  ∃ resp sA sB,
    compare_ipads (ext := sample_env) (Some nan_store) nan_request = Ok resp ∧
    resp !! "recommended" = Some (VStr "B") ∧
    resp !! "scores" = Some (VDict {[ "a" := VFloat sA; "b" := VFloat sB ]}) ∧
    (is_nan nan = true → is_nan sA = true) ∧
    (is_nan nan = true → is_nan sB = true).
Proof.
  apply (compare_ipads_nan_display (ext := sample_env) nan_store nan_request
           (mk_oid 7) (mk_oid 7) record_nan record_nan
           "M4" nan true [VInt 64] "M4" nan true [VInt 64]);
    try vm_refl.
  - repeat split; first [vm_refl | simpl; lia].
  - repeat split; first [vm_refl | simpl; lia].
  - by left.
Defined.

Lemma list_ipads_plain_query_witness :
  ∃ out,
    list_ipads (ext := sample_env) (eng := sample_engine) (Some seeded_store)
      (Some "mini"%string) None None None = Ok out ∧
    ∀ r, r ∈ out ↔
         ∃ d n, d ∈ ipad seeded_store ∧ d !! "name" = Some (VStr n) ∧
                occurs_ci "mini" n ∧ r = serialize_doc (ext := sample_env) d.
Proof.
  apply (list_ipads_plain_query (ext := sample_env) (eng := sample_engine)
           seeded_store "mini"); [vm_refl|discriminate|vm_refl..].
Defined.
